(** * copulamnsig: the multinomial signature of a copula and the choice of a family

    A shallow embedding of [copulamnsig.py]: the grid of the unit square
    ([_makeCoordsList]), the theoretical signature ([copulamnsig]), the
    empirical signature ([empirical_copulamnsig]) and the choice of the
    family ([optimalCopulaFamily]).

    The module is Python 2 ([print] statements, [dict.iteritems]).

    Conventions of the embedding.
    - Python integers are [Z]; loop indices, which [range] keeps
      non-negative, are [nat].
    - Floating point numbers are exact rationals [Q], and a literal is
      the rational that its double is.  The rounding of the operations is
      not modelled there: an equality between computed values holds up to
      rounding.  Where rounding decides a property, the computation is
      replayed on doubles in [Binary64].  The divergence that
      [scipy.stats.entropy] returns is a rational or [+inf].
    - Exceptions are explicit: a computation returns [Ok v] or [Raise e].
    - The functions of other modules ([cvolume], [kendalls_tau],
      [probability_integral_transform], [entropy], [invcopulastat]) are
      parameters of the sections that use them. *)

From Stdlib Require Import ZArith QArith Lqa Lia List Bool.
From Stdlib Require Import String Ascii Permutation.
From Stdlib Require PrimFloat FloatOps SpecFloat Uint63.
Import ListNotations.

(* ================================================================= *)
(** ** Python values and exceptions *)

Module Py.

Inductive exn : Type :=
| ValueError
| IndexError
| UnboundLocalError.

Inductive result (A : Type) : Type :=
| Ok (a : A)
| Raise (e : exn).

Arguments Ok {A} a.
Arguments Raise {A} e.

Definition bind {A B : Type} (c : result A) (k : A -> result B) : result B :=
  match c with
  | Ok a => k a
  | Raise e => Raise e
  end.

(** [range(0, n)]: empty when [n <= 0]. *)
Definition range0 (n : Z) : list nat := seq 0 (Z.to_nat n).

(** [range(a, b)] for a natural [a]. *)
Definition range (a : nat) (b : Z) : list nat := seq a (Z.to_nat b - a).

(** [l[i]] for [0 <= i]: an [IndexError] out of range. *)
Definition getitem {A : Type} (l : list A) (i : nat) : result A :=
  match nth_error l i with
  | Some a => Ok a
  | None => Raise IndexError
  end.

(** [l[i] = v] on a list, for [0 <= i]: an [IndexError] out of range. *)
Fixpoint setitem {A : Type} (l : list A) (i : nat) (v : A) : result (list A) :=
  match l, i with
  | [], _ => Raise IndexError
  | _ :: t, O => Ok (v :: t)
  | a :: t, S i' =>
      match setitem t i' v with
      | Ok t' => Ok (a :: t')
      | Raise e => Raise e
      end
  end.

(** [for x in xs: body], the body threading a state and possibly raising. *)
Fixpoint for_each {A S : Type} (xs : list A) (body : A -> S -> result S)
         (s : S) : result S :=
  match xs with
  | [] => Ok s
  | x :: xs' =>
      match body x s with
      | Ok s' => for_each xs' body s'
      | Raise e => Raise e
      end
  end.

(** [bool] is a subclass of [int]: as an index, [False] is 0 and [True] 1. *)
Definition index_of_bool (b : bool) : nat := if b then 1%nat else 0%nat.

(** [l == n] for a list [l] and an integer [n]: objects of different
    types, never equal. *)
Definition list_eq_int {A : Type} (l : list A) (n : Z) : bool := false.

(** [str.lower()] on ASCII letters. *)
Definition lower_ascii (c : ascii) : ascii :=
  let n := nat_of_ascii c in
  if ((65 <=? n) && (n <=? 90))%nat then ascii_of_nat (n + 32) else c.

Fixpoint lower (s : string) : string :=
  match s with
  | EmptyString => EmptyString
  | String c s' => String (lower_ascii c) (lower s')
  end.

End Py.

Export Py.

Notation "x <- c ;; k" := (Py.bind c (fun x => k))
  (at level 61, c at next level, right associativity).

(* ================================================================= *)
(** ** The parts of numpy the module uses *)

Module Np.

Open Scope Q_scope.

(** [np.finfo(float).eps] and [np.spacing(1)]: both are [2^-52]. *)
Definition eps : Q := 1 # (2 ^ 52).
Definition spacing1 : Q := 1 # (2 ^ 52).

(** [y[-1] = v] on a non-empty array. *)
Definition set_last (y : list Q) (v : Q) : list Q :=
  match y with
  | [] => []
  | _ => removelast y ++ [v]
  end.

(** [np.linspace(start, stop, num)] with the end point included:
    [num] values [i * step + start], [step = (stop - start) / (num - 1)],
    the last one set to [stop]; a negative [num] is a [ValueError]
    (numpy 1.10 and later). *)
Definition linspace (start stop : Q) (num : Z) : result (list Q) :=
  if (num <? 0)%Z then Raise ValueError
  else
    let step := (stop - start) / inject_Z (num - 1) in
    let y := map (fun i => inject_Z (Z.of_nat i) * step + start)
                 (seq 0 (Z.to_nat num)) in
    Ok (if (1 <? num)%Z then set_last y stop else y).

(** [np.zeros(n)]. *)
Definition zeros (n : Z) : list Q := repeat 0 (Z.to_nat n).

(** [a[a == 0] = v] on an array: the mask selects the zero entries. *)
Definition mask_zero_assign (a : list Q) (v : Q) : list Q :=
  map (fun x => if Qeq_bool x 0 then v else x) a.

(** [a[j] = a[j] + d] on an array, [j] in range. *)
Fixpoint add_at (a : list Q) (j : nat) (d : Q) : list Q :=
  match a, j with
  | [], _ => []
  | x :: t, O => (x + d) :: t
  | x :: t, S j' => x :: add_at t j' d
  end.

Definition sum (a : list Q) : Q := fold_right Qplus 0 a.

End Np.

(* ================================================================= *)
(** ** The grid: [_makeCoordsList] *)

Open Scope Q_scope.

Definition point : Type := (Q * Q)%type.

(** One cell [x = [u1v1, u1v2, u2v1, u2v2]]. *)
Record coords : Type := mkCoords {
  u1v1 : point;
  u1v2 : point;
  u2v1 : point;
  u2v2 : point
}.

(** The body of the two loops for the indices [ii], [jj]. *)
Definition make_cell (u v : list Q) (ii jj : nat) : coords :=
  let u1 := nth ii u 0 in
  let u2 := nth (ii + 1) u 0 in
  let v1 := nth jj v 0 in
  let v2 := nth (jj + 1) v 0 in
  mkCoords (u1, v1) (u1, v2) (u2, v1) (u2, v2).

Definition _makeCoordsList (K : Z) : result (list coords) :=
  u <- Np.linspace (0 + Np.eps) (1 - Np.eps) (K + 1) ;;
  v <- Np.linspace (0 + Np.eps) (1 - Np.eps) (K + 1) ;;
  Ok (flat_map
        (fun ii => map (fun jj => make_cell u v ii jj)
                       (range0 (Z.of_nat (List.length v) - 1)))
        (range0 (Z.of_nat (List.length u) - 1))).

(** The corners the scan of [empirical_copulamnsig] reads:
    [c[0][0][0]], [c[0][0][1]], [c[3][0][0]], [c[3][0][1]]. *)
Definition cell_u1 (c : coords) : Q := fst (u1v1 c).
Definition cell_v1 (c : coords) : Q := snd (u1v1 c).
Definition cell_u2 (c : coords) : Q := fst (u2v2 c).
Definition cell_v2 (c : coords) : Q := snd (u2v2 c).

(** [x < y] on floats, as a boolean ([Qle_bool] is the library's [<=]). *)
Definition Qlt_bool (x y : Q) : bool := negb (Qle_bool y x).

(** The literal [-0.05] of [optimalCopulaFamily]: [1/20] is not a double,
    and the literal denotes the double nearest to it,
    [-0x1.999999999999ap-5 = -3602879701896397 / 2^56], which is just
    below [-1/20]. *)
Definition neg_0_05 : Q := - (3602879701896397 # 72057594037927936).

(* ================================================================= *)
(** ** Arrays of samples *)

(** A two-dimensional array: its shape and its rows. *)
Record ndarray : Type := mkArray {
  shape0 : nat;
  shape1 : nat;
  item : list (list Q)
}.

(** The rows agree with the shape. *)
Definition wf_array (A : ndarray) : Prop :=
  List.length (item A) = shape0 A /\
  Forall (fun r => List.length r = shape1 A) (item A).

(** The slice [A[:, d]]: an [IndexError] when [d] is not a column. *)
Definition column (A : ndarray) (d : nat) : result (list Q) :=
  if (d <? shape1 A)%nat then Ok (map (fun r => nth d r 0) (item A))
  else Raise IndexError.

(** The dependency value given to [cvolume] and [invcopulastat]:
    ['kendall'], ['spearman'] or ['native'] and a scalar. *)
Inductive dependency : Type :=
| kendall (value : Q)
| spearman (value : Q)
| native (value : Q).

(** The record [tmp] of one pair of columns. *)
Record esig_record : Type := mkEsig {
  rv1 : Z;
  rv2 : Z;
  esig : list Q
}.

(** A Kullback-Leibler divergence: a number or [np.inf]. *)
Inductive distance : Type :=
| Finite (d : Q)
| Inf.

(** [a < b] on divergences. *)
Definition dist_lt (a b : distance) : bool :=
  match a, b with
  | Finite x, Finite y => Qlt_bool x y
  | Finite _, Inf => true
  | Inf, _ => false
  end.

(** The dictionary [distances], its keys in the order of their first
    insertion. *)
Definition dict : Type := list (string * distance).

(** [d[k] = v]. *)
Fixpoint dict_set (d : dict) (k : string) (v : distance) : dict :=
  match d with
  | [] => [(k, v)]
  | (k', v') :: d' =>
      if String.eqb k' k then (k', v) :: d' else (k', v') :: dict_set d' k v
  end.

Fixpoint dict_get (d : dict) (k : string) : option distance :=
  match d with
  | [] => None
  | (k', v') :: d' => if String.eqb k' k then Some v' else dict_get d' k
  end.

(* ================================================================= *)
(** ** The order in which CPython 2.7 iterates a dictionary of strings

    The module is Python 2 ([print] statements, [iteritems]), where a
    dictionary is iterated in the order of the slots of its hash table.
    This is the table of CPython 2.7 on a 64-bit machine, without hash
    randomisation: the string hash, the probe sequence and the growth of
    the table. *)

Module CPython27.

Open Scope Z_scope.

Definition wrap64 (x : Z) : Z := x mod 2 ^ 64.

Definition ord (c : ascii) : Z := Z.of_nat (nat_of_ascii c).

(** [string_hash], as an unsigned 64-bit number. *)
Definition string_hash (s : string) : Z :=
  match s with
  | EmptyString => 0
  | String c _ =>
      let x := fold_left (fun x ch => Z.lxor (wrap64 (1000003 * x)) (ord ch))
                         (list_ascii_of_string s)
                         (wrap64 (Z.shiftl (ord c) 7)) in
      let x := Z.lxor x (Z.of_nat (String.length s)) in
      if x =? 2 ^ 64 - 1 then 2 ^ 64 - 2 else x
  end.

Definition table : Type := list (option (string * distance)).

Definition mask (t : table) : Z := Z.of_nat (List.length t) - 1.

(** [lookdict_string]: the slot of [key], or the free slot that ends its
    probe sequence. *)
Fixpoint probe (fuel : nat) (t : table) (i perturb : Z) (key : string)
  : option nat :=
  match fuel with
  | O => None
  | S fuel' =>
      let slot := Z.to_nat (Z.land i (mask t)) in
      match nth slot t None with
      | None => Some slot
      | Some (k, _) =>
          if String.eqb k key then Some slot
          else probe fuel' t (wrap64 (Z.shiftl i 2 + i + perturb + 1))
                     (Z.shiftr perturb 5) key
      end
  end.

Fixpoint set_slot (t : table) (slot : nat) (e : string * distance) : table :=
  match t, slot with
  | [], _ => []
  | _ :: t', O => Some e :: t'
  | x :: t', S n => x :: set_slot t' n e
  end.

Definition insert (t : table) (k : string) (v : distance) : table :=
  let h := string_hash k in
  match probe (64 + List.length t) t (Z.land h (mask t)) h k with
  | Some slot => set_slot t slot (k, v)
  | None => t
  end.

Definition entries (t : table) : list (string * distance) :=
  flat_map (fun e => match e with Some kv => [kv] | None => [] end) t.

Definition used (t : table) : Z := Z.of_nat (List.length (entries t)).

(** The new size of [dictresize]: the first power of two above [minused],
    starting from 8. *)
Fixpoint newsize (fuel : nat) (size minused : Z) : Z :=
  match fuel with
  | O => size
  | S fuel' => if size <=? minused then newsize fuel' (2 * size) minused
               else size
  end.

Definition resize (t : table) (minused : Z) : table :=
  let n := newsize 64 8 minused in
  fold_left (fun t' e => insert t' (fst e) (snd e)) (entries t)
            (repeat None (Z.to_nat n)).

(** [PyDict_SetItem]: insert, then grow when a key was added and the
    table is two thirds full. *)
Definition setitem (t : table) (k : string) (v : distance) : table :=
  let t' := insert t k v in
  if (used t <? used t') && (2 * (mask t' + 1) <=? 3 * used t')
  then resize t' ((if 50000 <? used t' then 2 else 4) * used t')
  else t'.

(** The items of a dictionary built by inserting the keys of [d] in
    their order, read slot by slot. *)
Definition iteritems (d : dict) : list (string * distance) :=
  entries (fold_left (fun t e => setitem t (fst e) (snd e)) d (repeat None 8%nat)).

End CPython27.

(* ================================================================= *)
(** ** The signatures and the choice of the family *)

Section Copulamnsig.

(** [cvolume(family, u1v1, u1v2, u2v1, u2v2, *args)[0]]. *)
Variable cvolume : string -> point -> point -> point -> point -> dependency -> Q.

(** [probability_integral_transform(X)]. *)
Variable probability_integral_transform : ndarray -> ndarray.

(** [multivariate_stats.kendalls_tau(X)]. *)
Variable kendalls_tau : ndarray -> Q.

(** [scipy.stats.entropy(pk, qk)]. *)
Variable entropy : list Q -> list Q -> distance.

(** [invcopulastat(family, 'kendall', tau)] and the type of its result. *)
Variable param : Type.
Variable invcopulastat : string -> dependency -> param.

(** [distances.iteritems()]: the items in the order of the dictionary's
    iteration. *)
Variable iteritems : dict -> list (string * distance).

Definition copulamnsig (family : string) (K : Z) (args : dependency)
  : result (list Q) :=
  coords_list <- _makeCoordsList K ;;
  Ok (map (fun coord =>
             cvolume family (u1v1 coord) (u1v2 coord) (u2v1 coord) (u2v2 coord)
                     args)
          coords_list).

(** The test of the scan: [u >= u1 and u < u2 and v >= v1 and v < v2]. *)
Definition in_zone (c : coords) (u v : Q) : bool :=
  Qle_bool (cell_u1 c) u && Qlt_bool u (cell_u2 c) &&
  Qle_bool (cell_v1 c) v && Qlt_bool v (cell_v2 c).

(** The loop [for jj in range(0, K*K)] for the sample [ii], with its
    [break]; [jjs] are the indices still to visit.  The addition of
    [1.0/M] is exact here; [Binary64.scan_zones] below rounds it as the
    doubles of the array do. *)
Fixpoint scan_zones (coords_list : list coords) (u v : list Q) (M : Z)
         (ii : nat) (jjs : list nat) (esig_vec : list Q) : result (list Q) :=
  match jjs with
  | [] => Ok esig_vec
  | jj :: jjs' =>
      c <- getitem coords_list jj ;;
      ui <- getitem u ii ;;
      vi <- getitem v ii ;;
      if in_zone c ui vi
      then Ok (Np.add_at esig_vec jj (1 / inject_Z M))
      else scan_zones coords_list u v M ii jjs' esig_vec
  end.

(** The body of the loops over [dim1] and [dim2]: the record of one pair. *)
Definition pair_esig (coords_list : list coords) (U : ndarray) (M K : Z)
           (dim1 dim2 : nat) : result esig_record :=
  u <- column U dim1 ;;
  v <- column U dim2 ;;
  esig_vec <- for_each (range0 M)
                (fun ii vec =>
                   scan_zones coords_list u v M ii (range0 (K * K)) vec)
                (Np.zeros (K * K)) ;;
  Ok (mkEsig (Z.of_nat dim1 + 1) (Z.of_nat dim2 + 1) esig_vec).

Definition empirical_copulamnsig (X : ndarray) (K : Z)
  : result (list esig_record) :=
  let M := Z.of_nat (shape0 X) in
  let N := Z.of_nat (shape1 X) in
  let U := probability_integral_transform X in
  coords_list <- _makeCoordsList K ;;
  for_each (range0 (N - 1))
    (fun dim1 esig0 =>
       for_each (range (dim1 + 1) N)
         (fun dim2 esig1 =>
            tmp <- pair_esig coords_list U M K dim1 dim2 ;;
            Ok (esig1 ++ [tmp]))
         esig0)
    [].

(** [mnsig[mnsig==0] = np.spacing(1)] where [mnsig] is the Python list
    that [copulamnsig] returns: [mnsig==0] compares a list with an
    integer, and its value is used as an index of the list. *)
Definition replace_zeros_list (mnsig : list Q) : result (list Q) :=
  setitem mnsig (index_of_bool (list_eq_int mnsig 0)) Np.spacing1.

(** The state of the loop over [family_search]: the variable [tau_hat],
    the dictionary [distances], and (a ghost of the model) the calls
    [copulamnsig(family, K, 'kendall', tau_hat)] made so far. *)
Record loop_state : Type := mkState {
  tau_hat : Q;
  distances : dict;
  built : list (string * Q)
}.

(** From [mnsig = copulamnsig(...)] to [distances[family] = entropy(...)],
    with the value [tau] of [tau_hat] on arrival. *)
Definition evaluate (K : Z) (empirical_mnsig : list Q) (family : string)
           (tau : Q) (st : loop_state) : result loop_state :=
  mnsig <- copulamnsig family K (kendall tau) ;;
  mnsig' <- replace_zeros_list mnsig ;;
  Ok (mkState tau
              (dict_set (distances st) family (entropy mnsig' empirical_mnsig))
              (built st ++ [(family, tau)])).

(** The branch of a family limited to positive concordance. *)
Definition restricted (K : Z) (empirical_mnsig : list Q) (family : string)
           (st : loop_state) : result loop_state :=
  if Qlt_bool (tau_hat st) neg_0_05 then
    Ok (mkState (tau_hat st) (dict_set (distances st) family Inf) (built st))
  else if Qle_bool neg_0_05 (tau_hat st) && Qlt_bool (tau_hat st) 0 then
    evaluate K empirical_mnsig family 0 st
  else if Qle_bool 1 (tau_hat st) then
    evaluate K empirical_mnsig family (1 - Np.spacing1) st
  else
    evaluate K empirical_mnsig family (tau_hat st) st.

(** The body of [for family in family_search]. *)
Definition family_body (K : Z) (empirical_mnsig : list Q) (family : string)
           (st : loop_state) : result loop_state :=
  if String.eqb (lower family) "clayton" then
    restricted K empirical_mnsig family st
  else if String.eqb (lower family) "gumbel" then
    restricted K empirical_mnsig family st
  else
    evaluate K empirical_mnsig family (tau_hat st) st.

(** The search of the minimum: [(minDistance, optimalFamily)], the
    family unbound ([None]) until a first assignment. *)
Definition search_step (acc : distance * option string)
           (kv : string * distance) : distance * option string :=
  let '(minDistance, optimalFamily) := acc in
  let '(family, distance) := kv in
  if dist_lt distance minDistance then (distance, Some family)
  else (minDistance, optimalFamily).

Definition search_min (items : list (string * distance))
  : distance * option string :=
  fold_left search_step items (Inf, None).

(** The loop over the families, from the empirical [tau_hat]. *)
Definition family_loop (K : Z) (empirical_mnsig : list Q) (tau : Q)
           (family_search : list string) : result loop_state :=
  for_each family_search (family_body K empirical_mnsig) (mkState tau [] []).

Definition optimalCopulaFamily (X : ndarray) (K : Z)
           (family_search : list string) : result (string * param * Q) :=
  let tau := kendalls_tau X in
  empirical_mnsig <- empirical_copulamnsig X K ;;
  first <- getitem empirical_mnsig 0 ;;
  let empirical_mnsig := Np.mask_zero_assign (esig first) Np.spacing1 in
  st <- family_loop K empirical_mnsig tau family_search ;;
  match snd (search_min (iteritems (distances st))) with
  | None => Raise UnboundLocalError
  | Some optimalFamily =>
      Ok (optimalFamily,
          invcopulastat optimalFamily (kendall (tau_hat st)),
          tau_hat st)
  end.

End Copulamnsig.

Arguments optimalCopulaFamily cvolume probability_integral_transform
  kendalls_tau entropy {param} invcopulastat iteritems X K family_search.

(* ================================================================= *)
(** ** The empirical signature on doubles

    [empirical_copulamnsig] again, on binary64 numbers with the
    roundings of IEEE 754: the break points of [np.linspace], the
    comparisons of the scan and the additions of [1.0/M]. *)

Module Binary64.

Import PrimFloat FloatOps SpecFloat.
Local Open Scope float_scope.
#[local] Set Warnings "-inexact-float".

(** [float(n)] for an integer [0 <= n < 2^63]. *)
Definition of_int (n : Z) : float := of_uint63 (Uint63.of_Z n).

(** The rational that a finite double is, in lowest terms. *)
Definition to_Q (x : float) : option Q :=
  match Prim2SF x with
  | S754_zero _ => Some 0%Q
  | S754_finite s m e =>
      let v := (inject_Z (Z.pos m) * Qpower 2 e)%Q in
      Some (Qred (if s then - v else v)%Q)
  | _ => None
  end.

(** [np.finfo(float).eps]. *)
Definition eps : float := 0x1p-52.

(** The literal [-0.05] of [optimalCopulaFamily]. *)
Definition neg_0_05 : float := - 0.05.

(** The double that follows [1.0], printed [1.0000000000000002]. *)
Definition next_after_one : float := 0x1.0000000000001p+0.

Definition set_last (y : list float) (v : float) : list float :=
  match y with
  | [] => []
  | _ => removelast y ++ [v]
  end.

(** [np.linspace(start, stop, num)]: [arange(0, num) * step + start]
    with [step = (stop - start) / (num - 1)], or
    [arange(0, num) / (num - 1) * (stop - start) + start] when the step
    is zero, and the last value set to [stop]. *)
Definition linspace (start stop : float) (num : Z) : result (list float) :=
  if (num <? 0)%Z then Raise ValueError
  else
    let div := (num - 1)%Z in
    let delta := stop - start in
    let step := delta / of_int div in
    let scale (i : nat) : float :=
      let y := of_int (Z.of_nat i) in
      if (0 <? div)%Z then
        if step =? 0 then y / of_int div * delta else y * step
      else y * delta in
    let y := map (fun i => scale i + start) (seq 0 (Z.to_nat num)) in
    Ok (if (1 <? num)%Z then set_last y stop else y).

Definition point : Type := (float * float)%type.

Record coords : Type := mkCoords {
  u1v1 : point;
  u1v2 : point;
  u2v1 : point;
  u2v2 : point
}.

Definition make_cell (u v : list float) (ii jj : nat) : coords :=
  let u1 := nth ii u 0 in
  let u2 := nth (ii + 1) u 0 in
  let v1 := nth jj v 0 in
  let v2 := nth (jj + 1) v 0 in
  mkCoords (u1, v1) (u1, v2) (u2, v1) (u2, v2).

Definition _makeCoordsList (K : Z) : result (list coords) :=
  u <- linspace (0 + eps) (1 - eps) (K + 1) ;;
  v <- linspace (0 + eps) (1 - eps) (K + 1) ;;
  Ok (flat_map
        (fun ii => map (fun jj => make_cell u v ii jj)
                       (range0 (Z.of_nat (List.length v) - 1)))
        (range0 (Z.of_nat (List.length u) - 1))).

Record ndarray : Type := mkArray {
  shape0 : nat;
  shape1 : nat;
  item : list (list float)
}.

Definition column (A : ndarray) (d : nat) : result (list float) :=
  if (d <? shape1 A)%nat then Ok (map (fun r => nth d r 0) (item A))
  else Raise IndexError.

Record esig_record : Type := mkEsig {
  rv1 : Z;
  rv2 : Z;
  esig : list float
}.

(** [u >= u1 and u < u2 and v >= v1 and v < v2]. *)
Definition in_zone (c : coords) (u v : float) : bool :=
  (fst (u1v1 c) <=? u) && (u <? fst (u2v2 c)) &&
  (snd (u1v1 c) <=? v) && (v <? snd (u2v2 c)).

Fixpoint add_at (a : list float) (j : nat) (d : float) : list float :=
  match a, j with
  | [], _ => []
  | x :: t, O => (x + d) :: t
  | x :: t, S j' => x :: add_at t j' d
  end.

Fixpoint scan_zones (coords_list : list coords) (u v : list float) (M : Z)
         (ii : nat) (jjs : list nat) (esig_vec : list float)
  : result (list float) :=
  match jjs with
  | [] => Ok esig_vec
  | jj :: jjs' =>
      c <- getitem coords_list jj ;;
      ui <- getitem u ii ;;
      vi <- getitem v ii ;;
      if in_zone c ui vi
      then Ok (add_at esig_vec jj (1 / of_int M))
      else scan_zones coords_list u v M ii jjs' esig_vec
  end.

Definition pair_esig (coords_list : list coords) (U : ndarray) (M K : Z)
           (dim1 dim2 : nat) : result esig_record :=
  u <- column U dim1 ;;
  v <- column U dim2 ;;
  esig_vec <- for_each (range0 M)
                (fun ii vec =>
                   scan_zones coords_list u v M ii (range0 (K * K)) vec)
                (repeat 0 (Z.to_nat (K * K))) ;;
  Ok (mkEsig (Z.of_nat dim1 + 1) (Z.of_nat dim2 + 1) esig_vec).

Definition empirical_copulamnsig
           (probability_integral_transform : ndarray -> ndarray)
           (X : ndarray) (K : Z) : result (list esig_record) :=
  let M := Z.of_nat (shape0 X) in
  let N := Z.of_nat (shape1 X) in
  let U := probability_integral_transform X in
  coords_list <- _makeCoordsList K ;;
  for_each (range0 (N - 1))
    (fun dim1 esig0 =>
       for_each (range (dim1 + 1) N)
         (fun dim2 esig1 =>
            tmp <- pair_esig coords_list U M K dim1 dim2 ;;
            Ok (esig1 ++ [tmp]))
         esig0)
    [].

(** [sum(a)], from the left. *)
Definition sum (a : list float) : float := fold_left add a 0.

(** Nine rows of two columns, every value [0.5]. *)
Definition U_nine : ndarray := mkArray 9 2 (repeat [0.5; 0.5] 9).

End Binary64.

(* ================================================================= *)
(** ** Notions the statements use *)

(** A point strictly inside the unit square. *)
Definition inside (p : point) : Prop :=
  0 < fst p /\ fst p < 1 /\ 0 < snd p /\ snd p < 1.

(** A computation that raises. *)
Definition rejects {A : Type} (r : result A) : Prop :=
  exists e, r = Raise e.

(** The pairs [(U[ii, d1], U[ii, d2])], row by row. *)
Definition samples (U : ndarray) (d1 d2 : nat) : list (Q * Q) :=
  map (fun r => (nth d1 r 0, nth d2 r 0)) (item U).

(** The cell of index [jj] holds the sample [s]. *)
Definition cell_holds (coords_list : list coords) (jj : nat) (s : Q * Q) : bool :=
  match nth_error coords_list jj with
  | Some c => in_zone c (fst s) (snd s)
  | None => false
  end.

(** The cell [jj] is the first, in the order of the grid, that holds [s]. *)
Definition first_hit (coords_list : list coords) (jj : nat) (s : Q * Q) : bool :=
  cell_holds coords_list jj s &&
  forallb (fun j => negb (cell_holds coords_list j s)) (seq 0 jj).

(** One of the first [n] cells holds [s]. *)
Definition some_hit (coords_list : list coords) (n : nat) (s : Q * Q) : bool :=
  existsb (fun jj => cell_holds coords_list jj s) (seq 0 n).

(** How many elements of a list pass a test. *)
Definition count {A : Type} (p : A -> bool) (l : list A) : nat :=
  List.length (filter p l).

(** The sample lies between the first and the last break point on both
    axes, the last one excluded. *)
Definition in_grid_range (s : Q * Q) : Prop :=
  Np.eps <= fst s /\ fst s < 1 - Np.eps /\
  Np.eps <= snd s /\ snd s < 1 - Np.eps.

(** What one sample does to the vector of a pair: the effect of the
    loop over [jj]. *)
Definition tally_step (coords_list : list coords) (M : Z) (n : nat)
           (vec : list Q) (s : Q * Q) : list Q :=
  match find (fun jj => cell_holds coords_list jj s) (seq 0 n) with
  | Some jj => Np.add_at vec jj (1 / inject_Z M)
  | None => vec
  end.

(** The record of the pair [(d1, d2)], sample by sample. *)
Definition pair_record (coords_list : list coords) (U : ndarray) (K : Z)
           (d1 d2 : nat) : esig_record :=
  mkEsig (Z.of_nat d1 + 1) (Z.of_nat d2 + 1)
         (fold_left
            (tally_step coords_list (Z.of_nat (shape0 U)) (Z.to_nat (K * K)))
            (samples U d1 d2) (Np.zeros (K * K))).

(* ================================================================= *)
(** ** Concrete inputs *)

(** Two samples of two variables. *)
Definition X_2x2 : ndarray := mkArray 2 2 [[1; 5]; [3; 2]].

(** Uniform margins well inside the unit square. *)
Definition U_inner : ndarray := mkArray 2 2 [[1 # 4; 3 # 4]; [3 # 4; 1 # 4]].


(** Three samples of one variable. *)
Definition X_3x1 : ndarray := mkArray 3 1 [[1]; [2]; [3]].

(* ================================================================= *)
(** ** Notions the statements about the choice of the family use *)

(** The families of the two guarded branches. *)
Definition is_restricted (family : string) : bool :=
  String.eqb (lower family) "clayton" || String.eqb (lower family) "gumbel".

(** The keys of a dictionary. *)
Definition keys (d : dict) : list string := map fst d.

(** The epsilon substitution as the comment of the code and the
    specification describe it: every entry that is exactly zero becomes
    [np.spacing(1)], the others stay. *)
Definition replace_zeros_spec (mnsig : list Q) : list Q :=
  map (fun x => if Qeq_bool x 0 then Np.spacing1 else x) mnsig.

(** The keys of [distances] after the loop, in the order of their first
    insertion: each candidate once, at its first position. *)
Definition insert_key (ks : list string) (k : string) : list string :=
  if existsb (String.eqb k) ks then ks else ks ++ [k].

Definition key_order (family_search : list string) : list string :=
  fold_left insert_key family_search [].

(** The end of [optimalCopulaFamily], from the state in which the loop
    over the families ends. *)
Definition selected {param : Type}
           (invcopulastat : string -> dependency -> param)
           (iteritems : dict -> list (string * distance))
           (st : loop_state) : result (string * param * Q) :=
  match snd (search_min (iteritems (distances st))) with
  | None => Raise UnboundLocalError
  | Some optimalFamily =>
      Ok (optimalFamily,
          invcopulastat optimalFamily (kendall (tau_hat st)),
          tau_hat st)
  end.

(* ================================================================= *)
(** ** Stand-ins for the functions of the other modules, for the
       statements at concrete inputs *)

(** The volume of the independence copula, whatever the family. *)
Definition cvolume_product (family : string) (p11 p12 p21 p22 : point)
           (args : dependency) : Q :=
  (fst p22 - fst p11) * (snd p22 - snd p11).

(** A finite divergence: the sum of the squared differences. *)
Definition entropy_squares (pk qk : list Q) : distance :=
  Finite (Np.sum (map (fun pq => (fst pq - snd pq) * (fst pq - snd pq))
                      (combine pk qk))).

(** An inversion that returns the value it is given. *)
Definition invcopulastat_value (family : string) (args : dependency) : Q :=
  match args with
  | kendall v => v
  | spearman v => v
  | native v => v
  end.

(** The default [family_search]. *)
Definition default_families : list string :=
  ["Gaussian"; "Clayton"; "Gumbel"; "Frank"]%string.

(* ================================================================= *)
(** ** Notions the further statements use *)

(** The pair [p] of variables comes before the pair [q]: the order of
    the two loops over [dim1] and [dim2]. *)
Definition pair_before (p q : Z * Z) : Prop :=
  (fst p < fst q)%Z \/ (fst p = fst q /\ (snd p < snd q)%Z).

(** The two variables of a record. *)
Definition rv_pair (r : esig_record) : Z * Z := (rv1 r, rv2 r).

(* ================================================================= *)
(** ** The Monte-Carlo harness: [testHELM]

    The harness draws [numMCSims] samples of a copula, gives each to
    [optimalCopulaFamily] and counts the families returned.  What it
    writes to [sys.stdout] is not modelled.  The generator of random
    numbers behind [copularnd] is an explicit state [rng]. *)

(** The exceptions of the harness: a missing key of [results], or the
    exception of a function it calls. *)
Inductive harness_exn : Type :=
| KeyError
| Propagated (e : exn).

Inductive outcome (A : Type) : Type :=
| Returns (a : A)
| Throws (e : harness_exn).

Arguments Returns {A} a.
Arguments Throws {A} e.

(** A call that may raise, inside the harness. *)
Definition propagate {A B : Type} (c : result A) (k : A -> outcome B)
  : outcome B :=
  match c with
  | Ok a => k a
  | Raise e => Throws (Propagated e)
  end.

(** The dictionary [results]: a count for each family name. *)
Definition counts : Type := list (string * Q).

(** [results[k] = v]. *)
Fixpoint counts_set (d : counts) (k : string) (v : Q) : counts :=
  match d with
  | [] => [(k, v)]
  | (k', v') :: d' =>
      if String.eqb k' k then (k', v) :: d' else (k', v') :: counts_set d' k v
  end.

(** [results[k]]: a [KeyError] when [k] is not a key. *)
Fixpoint counts_get (d : counts) (k : string) : outcome Q :=
  match d with
  | [] => Throws KeyError
  | (k', v') :: d' => if String.eqb k' k then Returns v' else counts_get d' k
  end.

(** [np.vstack(lst)] of one-dimensional arrays: a [ValueError] for an
    empty list and for arrays of different lengths. *)
Definition vstack (lst : list (list Q)) : result ndarray :=
  match lst with
  | [] => Raise ValueError
  | row :: rest =>
      if forallb (fun r => (List.length r =? List.length row)%nat) rest
      then Ok (mkArray (List.length lst) (List.length row) lst)
      else Raise ValueError
  end.

(** [A.T]. *)
Definition transpose (A : ndarray) : ndarray :=
  mkArray (shape1 A) (shape0 A)
          (map (fun i => map (fun row => nth i row 0) (item A))
               (seq 0 (shape1 A))).

(** The matrix [Rho] of the Gaussian branch: 1 on the diagonal, [r]
    elsewhere. *)
Definition make_Rho (N : Z) (r : Q) : list (list Q) :=
  map (fun jj => map (fun kk => if (jj =? kk)%nat then 1 else r) (range0 N))
      (range0 N).

Section TestHELM.

Variable cvolume : string -> point -> point -> point -> point -> dependency -> Q.
Variable probability_integral_transform : ndarray -> ndarray.
Variable kendalls_tau : ndarray -> Q.
Variable entropy : list Q -> list Q -> distance.
Variable invcopulastat : string -> dependency -> Q.
Variable iteritems : dict -> list (string * distance).

(** The state of the random generator. *)
Variable rng : Type.

(** [copularnd(family, M, Rho)] and [copularnd(family, M, N, alpha)]. *)
Variable copularnd_Rho : string -> Z -> list (list Q) -> rng -> ndarray * rng.
Variable copularnd_alpha : string -> Z -> Z -> Q -> rng -> ndarray * rng.

(** [norm.ppf] and [expon.ppf] on a column. *)
Variable norm_ppf : list Q -> list Q.
Variable expon_ppf : list Q -> list Q.

(** The first loop: [results[fam.lower()] = 0]. *)
Definition initial_results (copulaFamiliesToTest : list string) : counts :=
  fold_left (fun results fam => counts_set results (lower fam) 0)
            copulaFamiliesToTest [].

(** The samples [U] of one simulation. *)
Definition draw (tau : Q) (M N : Z) (familyToTest : string) (g : rng)
  : ndarray * rng :=
  if String.eqb (lower familyToTest) "gaussian" then
    let r := invcopulastat familyToTest (kendall tau) in
    copularnd_Rho familyToTest M (make_Rho N r) g
  else
    let alpha := invcopulastat familyToTest (kendall tau) in
    copularnd_alpha familyToTest M N alpha g.

(** The list [lst]: the columns of [U] through the two quantile
    functions, in turn. *)
Definition margins (N : Z) (U : ndarray) : result (list (list Q)) :=
  for_each (range0 N)
    (fun jj lst =>
       col <- column U jj ;;
       Ok (lst ++ [if Nat.even jj then norm_ppf col else expon_ppf col]))
    [].

(** The body of the loop over the simulations. *)
Definition simulation (tau : Q) (M N : Z) (familyToTest : string)
           (copulaFamiliesToTest : list string)
           (s : counts * rng) : outcome (counts * rng) :=
  let (results, g) := s in
  let (U, g') := draw tau M N familyToTest g in
  propagate (margins N U) (fun lst =>
  propagate (vstack lst) (fun X =>
  let X := transpose X in
  propagate (optimalCopulaFamily cvolume probability_integral_transform
               kendalls_tau entropy invcopulastat iteritems
               X 4 copulaFamiliesToTest) (fun ret =>
  let ret_family := lower (fst (fst ret)) in
  match counts_get results ret_family with
  | Returns old => Returns (counts_set results ret_family (old + 1), g')
  | Throws e => Throws e
  end))).

(** [n] simulations, one after the other. *)
Fixpoint simulations (n : nat) (tau : Q) (M N : Z) (familyToTest : string)
         (copulaFamiliesToTest : list string)
         (s : counts * rng) : outcome (counts * rng) :=
  match n with
  | O => Returns s
  | S n' =>
      match simulation tau M N familyToTest copulaFamiliesToTest s with
      | Returns s' =>
          simulations n' tau M N familyToTest copulaFamiliesToTest s'
      | Throws e => Throws e
      end
  end.

(** [testHELM]: the counts and the state in which the generator is left. *)
Definition testHELM (tau : Q) (M N : Z) (familyToTest : string)
           (numMCSims : Z) (copulaFamiliesToTest : list string) (g : rng)
  : outcome (counts * rng) :=
  simulations (Z.to_nat numMCSims) tau M N familyToTest copulaFamiliesToTest
              (initial_results copulaFamiliesToTest, g).

End TestHELM.

(* ================================================================= *)
(** ** The pie chart: [plotPieChartResults]

    Only the list [expTup] is modelled; the calls of matplotlib are not. *)

(** [l.index(x)]: the first position of [x], a [ValueError] without one. *)
Fixpoint list_index (l : list string) (x : string) : result nat :=
  match l with
  | [] => Raise ValueError
  | y :: l' =>
      if String.eqb y x then Ok 0%nat
      else match list_index l' x with
           | Ok i => Ok (S i)
           | Raise e => Raise e
           end
  end.

(** [expTup], from the list [results.keys()]. *)
Definition expTup (results_keys : list string) (family : string)
  : result (list Q) :=
  i <- list_index results_keys (lower family) ;;
  setitem [0; 0; 0; 0] i (1 # 10).

(** The sum of the counts. *)
Definition counts_total (d : counts) : Q := Np.sum (map snd d).

(* ================================================================= *)
(** * Properties *)

(** ** Lists built by two nested loops *)

Section NestedLoops.

Variables (A : Type) (g : nat -> nat -> A) (m : nat).

Let row (i : nat) : list A := map (g i) (seq 0 m).

Lemma row_length (i : nat) : List.length (row i) = m.
Proof. unfold row. now rewrite length_map, length_seq. Qed.

Lemma nested_length (n s : nat) :
  List.length (flat_map row (seq s n)) = (n * m)%nat.
Proof.
  revert s; induction n as [|n IH]; intro s; simpl; [reflexivity|].
  now rewrite length_app, IH, row_length.
Qed.

Lemma nested_nth_error (n s i j : nat) :
  (i < n)%nat -> (j < m)%nat ->
  nth_error (flat_map row (seq s n)) (i * m + j) = Some (g (s + i) j).
Proof.
  revert s i; induction n as [|n IH]; intros s i Hi Hj; [lia|].
  simpl. destruct i as [|i].
  - simpl. rewrite nth_error_app1 by now rewrite row_length.
    unfold row. rewrite nth_error_map, nth_error_seq.
    destruct (Nat.ltb_spec j m); [|lia]. simpl. now rewrite Nat.add_0_r.
  - rewrite nth_error_app2 by (rewrite row_length; simpl; lia).
    rewrite row_length.
    replace (S i * m + j - m)%nat with (i * m + j)%nat by (simpl; lia).
    rewrite IH by lia. f_equal. f_equal. lia.
Qed.

Lemma nested_In (n s : nat) (c : A) :
  In c (flat_map row (seq s n)) ->
  exists i j, (s <= i < s + n)%nat /\ (j < m)%nat /\ c = g i j.
Proof.
  intro H. apply in_flat_map in H as (i & Hi & Hc).
  apply in_map_iff in Hc as (j & <- & Hj).
  apply in_seq in Hi, Hj. exists i, j. repeat split; lia.
Qed.

End NestedLoops.

(** ** [np.linspace] *)

(** [inject_Z] of a positive natural is not zero. *)
Ltac nonzero_inject :=
  let E := fresh "E" in intro E; unfold Qeq in E; simpl in E; lia.

Lemma set_last_snoc (y : list Q) (x v : Q) : Np.set_last (y ++ [x]) v = y ++ [v].
Proof.
  unfold Np.set_last. rewrite removelast_last.
  destruct y; reflexivity.
Qed.

Lemma linspace_negative (a b : Q) (num : Z) :
  (num < 0)%Z -> Np.linspace a b num = Raise ValueError.
Proof.
  intro H. unfold Np.linspace. destruct (Z.ltb_spec num 0); [reflexivity|lia].
Qed.

Lemma linspace_points (a b : Q) (n : nat) :
  (1 <= n)%nat ->
  Np.linspace a b (Z.of_nat n + 1) =
  Ok (map (fun i => inject_Z (Z.of_nat i) * ((b - a) / inject_Z (Z.of_nat n)) + a)
          (seq 0 n) ++ [b]).
Proof.
  intro Hn. unfold Np.linspace.
  destruct (Z.ltb_spec (Z.of_nat n + 1) 0); [lia|].
  destruct (Z.ltb_spec 1 (Z.of_nat n + 1)); [|lia].
  replace (Z.to_nat (Z.of_nat n + 1)) with (S n) by lia.
  replace (Z.of_nat n + 1 - 1)%Z with (Z.of_nat n) by lia.
  rewrite seq_S, map_app. simpl. now rewrite set_last_snoc.
Qed.

Lemma nth_map_seq (A : Type) (f : nat -> A) (n i : nat) (d : A) :
  (i < n)%nat -> nth i (map f (seq 0 n)) d = f i.
Proof.
  intro Hi. apply nth_error_nth.
  rewrite nth_error_map, nth_error_seq.
  destruct (Nat.ltb_spec i n); [reflexivity|lia].
Qed.

Lemma linspace_nth (a b : Q) (n i : nat) (u : list Q) :
  (1 <= n)%nat -> (i <= n)%nat ->
  Np.linspace a b (Z.of_nat n + 1) = Ok u ->
  nth i u 0 == a + inject_Z (Z.of_nat i) * ((b - a) / inject_Z (Z.of_nat n)).
Proof.
  intros Hn Hi Hu. rewrite linspace_points in Hu by assumption.
  injection Hu as <-.
  assert (Hlen : List.length (map (fun i0 : nat =>
            inject_Z (Z.of_nat i0) * ((b - a) / inject_Z (Z.of_nat n)) + a)
            (seq 0 n)) = n) by now rewrite length_map, length_seq.
  destruct (Nat.eq_dec i n) as [->|Hne].
  - rewrite app_nth2 by lia. rewrite Hlen, Nat.sub_diag. simpl.
    assert (~ inject_Z (Z.of_nat n) == 0).
    { nonzero_inject. }
    field. assumption.
  - rewrite app_nth1 by lia.
    rewrite nth_map_seq by lia. ring.
Qed.

Lemma linspace_length (a b : Q) (n : nat) (u : list Q) :
  (1 <= n)%nat -> Np.linspace a b (Z.of_nat n + 1) = Ok u ->
  List.length u = S n.
Proof.
  intros Hn Hu. rewrite linspace_points in Hu by assumption. injection Hu as <-.
  rewrite length_app, length_map, length_seq. simpl. lia.
Qed.

Lemma eps_bounds : 0 < Np.eps /\ Np.eps < 1 # 2.
Proof. split; reflexivity. Qed.

(** The break points of the grid. *)
Lemma break_point_bounds (n i : nat) (u : list Q) :
  (1 <= n)%nat -> (i <= n)%nat ->
  Np.linspace (0 + Np.eps) (1 - Np.eps) (Z.of_nat n + 1) = Ok u ->
  Np.eps <= nth i u 0 /\ nth i u 0 <= 1 - Np.eps.
Proof.
  intros Hn Hi Hu. rewrite (linspace_nth _ _ _ _ _ Hn Hi Hu).
  destruct eps_bounds as [E0 E1].
  set (k := inject_Z (Z.of_nat n)).
  set (x := inject_Z (Z.of_nat i)).
  assert (Hk : 0 < k) by (unfold k; rewrite <- (Zlt_Qlt 0); lia).
  assert (Hx0 : 0 <= x) by (unfold x; rewrite <- (Zle_Qle 0); lia).
  assert (Hxk : x <= k) by (unfold x, k; rewrite <- Zle_Qle; lia).
  set (w := 1 - Np.eps - (0 + Np.eps)).
  assert (Hw : 0 < w) by (unfold w; lra).
  assert (Hs : 0 < w / k).
  { apply Qlt_shift_div_l; [assumption|lra]. }
  assert (Hks : k * (w / k) == w) by (field; lra).
  split.
  - assert (0 <= x * (w / k)) by (apply Qmult_le_0_compat; lra). lra.
  - assert (x * (w / k) <= k * (w / k)) by (apply Qmult_le_compat_r; lra).
    unfold w in *. lra.
Qed.

Lemma break_point_increasing (n i : nat) (u : list Q) :
  (1 <= n)%nat -> (i < n)%nat ->
  Np.linspace (0 + Np.eps) (1 - Np.eps) (Z.of_nat n + 1) = Ok u ->
  nth i u 0 < nth (i + 1) u 0.
Proof.
  intros Hn Hi Hu.
  assert (Hi1 : (i <= n)%nat) by lia.
  assert (Hi2 : (i + 1 <= n)%nat) by lia.
  rewrite (linspace_nth _ _ _ _ _ Hn Hi1 Hu), (linspace_nth _ _ _ _ _ Hn Hi2 Hu).
  destruct eps_bounds as [E0 E1].
  set (k := inject_Z (Z.of_nat n)).
  assert (Hk : 0 < k) by (unfold k; rewrite <- (Zlt_Qlt 0); lia).
  set (w := 1 - Np.eps - (0 + Np.eps)).
  assert (Hw : 0 < w) by (unfold w; lra).
  assert (Hs : 0 < w / k) by (apply Qlt_shift_div_l; [assumption|lra]).
  replace (Z.of_nat (i + 1)) with (Z.of_nat i + 1)%Z by lia.
  rewrite inject_Z_plus. fold k w.
  set (s := w / k) in *. set (x := inject_Z (Z.of_nat i)).
  assert (E : (x + inject_Z 1) * s == x * s + s) by (simpl; ring).
  rewrite E. lra.
Qed.

(** ** The grid *)

Lemma makeCoordsList_cells (n : nat) (u : list Q) :
  (1 <= n)%nat ->
  Np.linspace (0 + Np.eps) (1 - Np.eps) (Z.of_nat n + 1) = Ok u ->
  _makeCoordsList (Z.of_nat n) =
  Ok (flat_map (fun ii => map (make_cell u u ii) (seq 0 n)) (seq 0 n)).
Proof.
  intros Hn Hu. unfold _makeCoordsList. rewrite Hu. simpl.
  rewrite (linspace_length _ _ _ _ Hn Hu). unfold range0.
  replace (Z.to_nat (Z.of_nat (S n) - 1)) with n by lia. reflexivity.
Qed.

Lemma make_cell_shape (n i j : nat) (u : list Q) :
  (1 <= n)%nat -> (i < n)%nat -> (j < n)%nat ->
  Np.linspace (0 + Np.eps) (1 - Np.eps) (Z.of_nat n + 1) = Ok u ->
  let c := make_cell u u i j in
  inside (u1v1 c) /\ inside (u1v2 c) /\ inside (u2v1 c) /\ inside (u2v2 c) /\
  cell_u1 c < cell_u2 c /\ cell_v1 c < cell_v2 c.
Proof.
  intros Hn Hi Hj Hu. simpl. unfold inside, cell_u1, cell_u2, cell_v1, cell_v2. simpl.
  destruct eps_bounds as [E0 E1].
  assert (Hi0 : (i <= n)%nat) by lia. assert (Hi1 : (i + 1 <= n)%nat) by lia.
  assert (Hj0 : (j <= n)%nat) by lia. assert (Hj1 : (j + 1 <= n)%nat) by lia.
  pose proof (break_point_bounds _ _ _ Hn Hi0 Hu) as [? ?].
  pose proof (break_point_bounds _ _ _ Hn Hi1 Hu) as [? ?].
  pose proof (break_point_bounds _ _ _ Hn Hj0 Hu) as [? ?].
  pose proof (break_point_bounds _ _ _ Hn Hj1 Hu) as [? ?].
  pose proof (break_point_increasing _ _ _ Hn Hi Hu).
  pose proof (break_point_increasing _ _ _ Hn Hj Hu).
  repeat split; lra.
Qed.

(** C5: for every [K >= 1] the grid has [K*K] cells, its break points are
    equally spaced from [eps] to [1 - eps], the cell of index [i*K + j]
    takes its corners from the break points [i], [i+1] (horizontal) and
    [j], [j+1] (vertical), every corner is strictly inside the unit
    square, and [u1 < u2], [v1 < v2] in every cell. *)
Theorem makeCoordsList_partition (K : Z) :
  (1 <= K)%Z ->
  exists cells u,
    _makeCoordsList K = Ok cells /\
    Np.linspace (0 + Np.eps) (1 - Np.eps) (K + 1) = Ok u /\
    List.length cells = Z.to_nat (K * K) /\
    List.length u = Z.to_nat (K + 1) /\
    (forall i, (i <= Z.to_nat K)%nat ->
       nth i u 0 ==
       Np.eps + inject_Z (Z.of_nat i) * ((1 - 2 * Np.eps) / inject_Z K)) /\
    (forall i j, (i < Z.to_nat K)%nat -> (j < Z.to_nat K)%nat ->
       nth_error cells (i * Z.to_nat K + j) =
       Some (mkCoords (nth i u 0, nth j u 0) (nth i u 0, nth (j + 1) u 0)
                      (nth (i + 1) u 0, nth j u 0)
                      (nth (i + 1) u 0, nth (j + 1) u 0))) /\
    (forall c, In c cells ->
       inside (u1v1 c) /\ inside (u1v2 c) /\ inside (u2v1 c) /\
       inside (u2v2 c) /\ cell_u1 c < cell_u2 c /\ cell_v1 c < cell_v2 c).
Proof.
  intro HK. set (n := Z.to_nat K).
  assert (Hn : (1 <= n)%nat) by lia.
  assert (EK : K = Z.of_nat n) by lia.
  pose proof (linspace_points (0 + Np.eps) (1 - Np.eps) n Hn) as Hu.
  rewrite <- EK in Hu.
  match type of Hu with _ = Ok ?l => set (u := l) in * end.
  exists (flat_map (fun ii => map (make_cell u u ii) (seq 0 n)) (seq 0 n)), u.
  assert (Hu' : Np.linspace (0 + Np.eps) (1 - Np.eps) (Z.of_nat n + 1) = Ok u)
    by now rewrite <- EK.
  split; [rewrite EK at 1; now apply makeCoordsList_cells|].
  split; [exact Hu|].
  split; [rewrite nested_length; lia|].
  split; [rewrite (linspace_length _ _ _ _ Hn Hu'); lia|].
  split.
  { intros i Hi. rewrite (linspace_nth _ _ _ _ _ Hn Hi Hu'), EK.
    field. nonzero_inject. }
  split.
  { intros i j Hi Hj.
    rewrite (nested_nth_error _ (make_cell u u) n n 0 i j Hi Hj). reflexivity. }
  intros c Hc. apply nested_In in Hc as (i & j & Hi & Hj & ->).
  apply (make_cell_shape n i j u); (assumption || lia).
Qed.

Lemma makeCoordsList_partition_witness :
  (1 <= 2)%Z /\
  exists cells u,
    _makeCoordsList 2 = Ok cells /\
    Np.linspace (0 + Np.eps) (1 - Np.eps) (2 + 1) = Ok u /\
    List.length cells = Z.to_nat (2 * 2) /\
    List.length u = Z.to_nat (2 + 1) /\
    (forall i, (i <= Z.to_nat 2)%nat ->
       nth i u 0 ==
       Np.eps + inject_Z (Z.of_nat i) * ((1 - 2 * Np.eps) / inject_Z 2)) /\
    (forall i j, (i < Z.to_nat 2)%nat -> (j < Z.to_nat 2)%nat ->
       nth_error cells (i * Z.to_nat 2 + j) =
       Some (mkCoords (nth i u 0, nth j u 0) (nth i u 0, nth (j + 1) u 0)
                      (nth (i + 1) u 0, nth j u 0)
                      (nth (i + 1) u 0, nth (j + 1) u 0))) /\
    (forall c, In c cells ->
       inside (u1v1 c) /\ inside (u1v2 c) /\ inside (u2v1 c) /\
       inside (u2v2 c) /\ cell_u1 c < cell_u2 c /\ cell_v1 c < cell_v2 c).
Proof.
  split; [lia | apply (makeCoordsList_partition 2); lia].
Defined.

(** ** Loops that do not raise *)

Lemma for_each_ok (A S : Type) (body : A -> S -> result S) (f : S -> A -> S)
      (xs : list A) (s : S) :
  (forall x s', In x xs -> body x s' = Ok (f s' x)) ->
  for_each xs body s = Ok (fold_left f xs s).
Proof.
  revert s; induction xs as [|x xs IH]; intros s H; simpl; [reflexivity|].
  rewrite H by (now left). apply IH. intros y s' Hy. apply H. now right.
Qed.

Lemma fold_left_ext_in (A S : Type) (f g : S -> A -> S) (xs : list A) (s : S) :
  (forall x s', In x xs -> f s' x = g s' x) ->
  fold_left f xs s = fold_left g xs s.
Proof.
  revert s; induction xs as [|x xs IH]; intros s H; simpl; [reflexivity|].
  rewrite H by (now left). apply IH. intros y s' Hy. apply H. now right.
Qed.

(** A loop over the indices of a list is a loop over its elements. *)
Lemma fold_left_indices (A S : Type) (f : S -> A -> S) (d : A) (l : list A) (s : S) :
  fold_left (fun a i => f a (nth i l d)) (seq 0 (List.length l)) s =
  fold_left f l s.
Proof.
  revert s; induction l as [|x l IH] using rev_ind; intro s; [reflexivity|].
  rewrite length_app. simpl. rewrite Nat.add_1_r, seq_S, !fold_left_app. simpl.
  rewrite app_nth2, Nat.sub_diag by lia. simpl. f_equal.
  rewrite <- IH. apply fold_left_ext_in. intros i s' Hi.
  apply in_seq in Hi. now rewrite app_nth1 by lia.
Qed.

(** ** The scan of the cells for one sample *)

Lemma scan_zones_spec (coords_list : list coords) (u v : list Q) (M : Z)
      (ii : nat) (ui vi : Q) (jjs : list nat) (vec : list Q) :
  nth_error u ii = Some ui -> nth_error v ii = Some vi ->
  Forall (fun jj => (jj < List.length coords_list)%nat) jjs ->
  scan_zones coords_list u v M ii jjs vec =
  Ok (match find (fun jj => cell_holds coords_list jj (ui, vi)) jjs with
      | Some jj => Np.add_at vec jj (1 / inject_Z M)
      | None => vec
      end).
Proof.
  intros Hu Hv. induction jjs as [|jj jjs IH]; intro Hin; simpl; [reflexivity|].
  inversion Hin as [|? ? Hjj Hrest]; subst.
  unfold getitem, cell_holds.
  destruct (nth_error coords_list jj) as [c|] eqn:Ec.
  2:{ apply nth_error_None in Ec. lia. }
  simpl. rewrite Hu, Hv. simpl.
  destruct (in_zone c ui vi); [reflexivity|]. now apply IH.
Qed.

Lemma column_ok (U : ndarray) (d : nat) :
  (d < shape1 U)%nat ->
  column U d = Ok (map (fun r => nth d r 0) (item U)).
Proof.
  intro H. unfold column. destruct (Nat.ltb_spec d (shape1 U)); [reflexivity|lia].
Qed.

Lemma pair_esig_spec (coords_list : list coords) (U : ndarray) (K : Z)
      (d1 d2 : nat) :
  List.length (item U) = shape0 U ->
  (d1 < shape1 U)%nat -> (d2 < shape1 U)%nat ->
  List.length coords_list = Z.to_nat (K * K) ->
  pair_esig coords_list U (Z.of_nat (shape0 U)) K d1 d2 =
  Ok (mkEsig (Z.of_nat d1 + 1) (Z.of_nat d2 + 1)
        (fold_left (tally_step coords_list (Z.of_nat (shape0 U)) (Z.to_nat (K * K)))
                   (samples U d1 d2) (Np.zeros (K * K)))).
Proof.
  intros Hrows H1 H2 Hcells. unfold pair_esig.
  rewrite (column_ok _ _ H1), (column_ok _ _ H2). simpl.
  set (u := map (fun r => nth d1 r 0) (item U)).
  set (v := map (fun r => nth d2 r 0) (item U)).
  set (M := Z.of_nat (shape0 U)).
  rewrite (for_each_ok _ _ _
             (fun vec ii => tally_step coords_list M (Z.to_nat (K * K)) vec
                              (nth ii (samples U d1 d2) (0, 0)))).
  - simpl. do 2 f_equal. unfold range0, M. rewrite Nat2Z.id, <- Hrows.
    replace (List.length (item U)) with (List.length (samples U d1 d2))
      by (unfold samples; apply length_map).
    apply fold_left_indices.
  - intros ii vec Hii. unfold range0, M in Hii. rewrite Nat2Z.id in Hii.
    apply in_seq in Hii.
    destruct (nth_error (item U) ii) as [r|] eqn:Er.
    2:{ apply nth_error_None in Er. lia. }
    assert (Hu : nth_error u ii = Some (nth d1 r 0))
      by (unfold u; now rewrite nth_error_map, Er).
    assert (Hv : nth_error v ii = Some (nth d2 r 0))
      by (unfold v; now rewrite nth_error_map, Er).
    rewrite (scan_zones_spec _ _ _ _ _ _ _ _ _ Hu Hv).
    + unfold tally_step, range0.
      replace (nth ii (samples U d1 d2) (0, 0)) with (nth d1 r 0, nth d2 r 0).
      * reflexivity.
      * symmetry. apply nth_error_nth. unfold samples.
        now rewrite nth_error_map, Er.
    + apply Forall_forall. intros jj Hjj. unfold range0 in Hjj.
      apply in_seq in Hjj. lia.
Qed.

(** ** The first cell that holds a sample *)

Lemma find_seq_Some (p : nat -> bool) (a n j : nat) :
  find p (seq a n) = Some j <->
  (a <= j < a + n)%nat /\ p j = true /\
  (forall k, (a <= k < j)%nat -> p k = false).
Proof.
  revert a; induction n as [|n IH]; intro a; simpl.
  - split; [discriminate | intros [H _]; lia].
  - destruct (p a) eqn:Ea.
    + split.
      * intros [= <-]. repeat split; try lia; assumption.
      * intros (Hj & Hp & Hmin). destruct (Nat.eq_dec a j) as [->|Hne]; [reflexivity|].
        rewrite Hmin in Ea by lia. discriminate.
    + rewrite IH. split.
      * intros (Hj & Hp & Hmin). repeat split; try lia; [assumption|].
        intros k Hk. destruct (Nat.eq_dec k a) as [->|Hne]; [assumption|].
        apply Hmin. lia.
      * intros (Hj & Hp & Hmin).
        assert (a <> j) by (intros ->; congruence).
        repeat split; try lia; [assumption|]. intros k Hk. apply Hmin. lia.
Qed.

Lemma find_seq_None (p : nat -> bool) (a n : nat) :
  find p (seq a n) = None <-> existsb p (seq a n) = false.
Proof.
  revert a; induction n as [|n IH]; intro a; simpl; [tauto|].
  destruct (p a); simpl; [split; discriminate | apply IH].
Qed.

Lemma first_hit_iff (coords_list : list coords) (jj : nat) (s : Q * Q) :
  first_hit coords_list jj s = true <->
  cell_holds coords_list jj s = true /\
  (forall k, (k < jj)%nat -> cell_holds coords_list k s = false).
Proof.
  unfold first_hit. rewrite andb_true_iff, forallb_forall. split.
  - intros [H1 H2]. split; [assumption|]. intros k Hk.
    apply negb_true_iff, H2, in_seq. lia.
  - intros [H1 H2]. split; [assumption|]. intros k Hk.
    apply in_seq in Hk. apply negb_true_iff, H2. lia.
Qed.

Lemma find_first_hit (coords_list : list coords) (n jj : nat) (s : Q * Q) :
  find (fun j => cell_holds coords_list j s) (seq 0 n) = Some jj <->
  (jj < n)%nat /\ first_hit coords_list jj s = true.
Proof.
  rewrite find_seq_Some, first_hit_iff. split.
  - intros (Hj & Hp & Hmin). repeat split; try lia; [assumption|].
    intros k Hk. apply Hmin. lia.
  - intros (Hj & Hp & Hmin). repeat split; try lia; [assumption|].
    intros k Hk. apply Hmin. lia.
Qed.

Lemma first_hit_unique (coords_list : list coords) (j j' : nat) (s : Q * Q) :
  first_hit coords_list j s = true -> first_hit coords_list j' s = true ->
  j = j'.
Proof.
  rewrite !first_hit_iff. intros [H1 M1] [H2 M2].
  destruct (Nat.lt_trichotomy j j') as [L|[E|L]]; [|assumption|].
  - rewrite (M2 _ L) in H1. discriminate.
  - rewrite (M1 _ L) in H2. discriminate.
Qed.

(** ** Arrays of counts *)

Lemma add_at_length (a : list Q) (j : nat) (d : Q) :
  List.length (Np.add_at a j d) = List.length a.
Proof.
  revert j; induction a as [|x a IH]; intros [|j]; simpl; auto.
Qed.

Lemma add_at_nth_same (a : list Q) (j : nat) (d : Q) :
  (j < List.length a)%nat -> nth j (Np.add_at a j d) 0 = nth j a 0 + d.
Proof.
  revert j; induction a as [|x a IH]; intros [|j] H; simpl in *; try lia; auto.
  apply IH. lia.
Qed.

Lemma add_at_nth_other (a : list Q) (i j : nat) (d : Q) :
  i <> j -> nth j (Np.add_at a i d) 0 = nth j a 0.
Proof.
  revert i j; induction a as [|x a IH]; intros [|i] [|j] H; simpl; auto; try lia.
Qed.

Lemma add_at_sum (a : list Q) (j : nat) (d : Q) :
  (j < List.length a)%nat -> Np.sum (Np.add_at a j d) == Np.sum a + d.
Proof.
  revert j; induction a as [|x a IH]; intros [|j] H; simpl in *; try lia.
  - ring.
  - rewrite IH by lia. ring.
Qed.

Lemma zeros_length (n : Z) : List.length (Np.zeros n) = Z.to_nat n.
Proof. apply repeat_length. Qed.

Lemma zeros_nth (n : Z) (j : nat) : nth j (Np.zeros n) 0 = 0.
Proof.
  unfold Np.zeros. generalize (Z.to_nat n) as m. intro m. revert j.
  induction m as [|m IH]; intros [|j]; simpl; auto.
Qed.

Lemma zeros_sum (n : Z) : Np.sum (Np.zeros n) == 0.
Proof.
  unfold Np.zeros. induction (Z.to_nat n) as [|m IH]; simpl; [reflexivity|].
  rewrite IH. ring.
Qed.

(** ** The vector of one pair *)

Section Tally.

Variables (coords_list : list coords) (M : Z) (n : nat).

Let d : Q := 1 / inject_Z M.
Let step := tally_step coords_list M n.

Lemma tally_length (ss : list (Q * Q)) (vec : list Q) :
  List.length (fold_left step ss vec) = List.length vec.
Proof.
  revert vec; induction ss as [|s ss IH]; intro vec; simpl; [reflexivity|].
  rewrite IH. unfold step, tally_step.
  destruct (find _ _); [apply add_at_length | reflexivity].
Qed.

Lemma tally_entry (ss : list (Q * Q)) (vec : list Q) (jj : nat) :
  (n <= List.length vec)%nat -> (jj < n)%nat ->
  nth jj (fold_left step ss vec) 0 ==
  nth jj vec 0 + inject_Z (Z.of_nat (count (first_hit coords_list jj) ss)) * d.
Proof.
  intros Hn Hjj. revert vec Hn.
  induction ss as [|s ss IH]; intros vec Hn; simpl.
  - unfold count. simpl. ring.
  - rewrite IH.
    2:{ unfold step, tally_step. destruct (find _ _); [rewrite add_at_length|]; assumption. }
    unfold step at 1, tally_step, count. simpl.
    destruct (find (fun j => cell_holds coords_list j s) (seq 0 n)) as [j|] eqn:Ef.
    + apply find_first_hit in Ef as [Hj Hf].
      destruct (Nat.eq_dec j jj) as [->|Hne].
      * rewrite Hf. simpl List.length. rewrite add_at_nth_same by lia.
        rewrite Nat2Z.inj_succ. unfold Z.succ. rewrite inject_Z_plus.
        fold d. simpl (inject_Z 1). ring.
      * rewrite add_at_nth_other by assumption.
        destruct (first_hit coords_list jj s) eqn:Hf'.
        -- exfalso. apply Hne. eapply first_hit_unique; eassumption.
        -- reflexivity.
    + destruct (first_hit coords_list jj s) eqn:Hf'; [|reflexivity].
      assert (Some jj = None) as [=].
      rewrite <- Ef. symmetry. apply find_first_hit. split; assumption.
Qed.

Lemma tally_sum (ss : list (Q * Q)) (vec : list Q) :
  (n <= List.length vec)%nat ->
  Np.sum (fold_left step ss vec) ==
  Np.sum vec + inject_Z (Z.of_nat (count (some_hit coords_list n) ss)) * d.
Proof.
  revert vec. induction ss as [|s ss IH]; intros vec Hn; simpl.
  - unfold count. simpl. ring.
  - rewrite IH.
    2:{ unfold step, tally_step. destruct (find _ _); [rewrite add_at_length|]; assumption. }
    unfold step at 1, tally_step, count. simpl.
    destruct (find (fun j => cell_holds coords_list j s) (seq 0 n)) as [j|] eqn:Ef.
    + assert (Hs : some_hit coords_list n s = true).
      { unfold some_hit. destruct (existsb _ _) eqn:Ee; [reflexivity|].
        apply find_seq_None in Ee. congruence. }
      apply find_first_hit in Ef as [Hj Hf].
      rewrite Hs. simpl List.length. rewrite add_at_sum by lia.
      rewrite Nat2Z.inj_succ. unfold Z.succ. rewrite inject_Z_plus.
      fold d. simpl (inject_Z 1). ring.
    + apply find_seq_None in Ef. unfold some_hit. rewrite Ef. reflexivity.
Qed.

End Tally.

(** ** The grid, as the estimator reads it *)

Lemma makeCoordsList_ok (K : Z) :
  (1 <= K)%Z ->
  exists u,
    Np.linspace (0 + Np.eps) (1 - Np.eps) (Z.of_nat (Z.to_nat K) + 1) = Ok u /\
    _makeCoordsList K =
    Ok (flat_map (fun ii => map (make_cell u u ii) (seq 0 (Z.to_nat K)))
                 (seq 0 (Z.to_nat K))).
Proof.
  intro HK. assert (Hn : (1 <= Z.to_nat K)%nat) by lia.
  eexists. split; [apply (linspace_points _ _ _ Hn)|].
  rewrite <- (Z2Nat.id K) at 1 by lia.
  apply makeCoordsList_cells; [assumption|]. apply (linspace_points _ _ _ Hn).
Qed.

Lemma Qlt_bool_iff (x y : Q) : Qlt_bool x y = true <-> x < y.
Proof.
  unfold Qlt_bool. rewrite negb_true_iff. split.
  - intro H. apply Qnot_le_lt. intro L. apply Qle_bool_iff in L. congruence.
  - intro H. destruct (Qle_bool y x) eqn:E; [|reflexivity].
    apply Qle_bool_iff in E. apply Qlt_not_le in H. contradiction.
Qed.

Lemma in_zone_iff (c : coords) (x y : Q) :
  in_zone c x y = true <->
  cell_u1 c <= x /\ x < cell_u2 c /\ cell_v1 c <= y /\ y < cell_v2 c.
Proof.
  unfold in_zone. rewrite !andb_true_iff, !Qle_bool_iff, !Qlt_bool_iff. tauto.
Qed.

Lemma some_hit_iff (coords_list : list coords) (n : nat) (s : Q * Q) :
  some_hit coords_list n s = true <->
  exists jj, (jj < n)%nat /\ cell_holds coords_list jj s = true.
Proof.
  unfold some_hit. rewrite existsb_exists. split.
  - intros (jj & Hin & H). apply in_seq in Hin. exists jj. split; [lia|assumption].
  - intros (jj & Hlt & H). exists jj. split; [apply in_seq; lia|assumption].
Qed.

(** A value between the first and the last break point lies in one of
    the intervals. *)
Lemma locate_interval (u : list Q) (x : Q) (m : nat) :
  nth 0 u 0 <= x -> x < nth m u 0 ->
  exists i, (i < m)%nat /\ nth i u 0 <= x /\ x < nth (i + 1) u 0.
Proof.
  intro H0. induction m as [|m IH]; intro Hm.
  - exfalso. apply (Qlt_irrefl x). eapply Qlt_le_trans; eassumption.
  - destruct (Qlt_le_dec x (nth m u 0)) as [L|G].
    + destruct (IH L) as (i & Hi & Hb). exists i. split; [lia|assumption].
    + exists m. rewrite Nat.add_1_r. split; [lia|]. split; assumption.
Qed.

Section GridGeometry.

Variables (n : nat) (u : list Q).
Hypothesis Hn : (1 <= n)%nat.
Hypothesis Hu : Np.linspace (0 + Np.eps) (1 - Np.eps) (Z.of_nat n + 1) = Ok u.

Let cells := flat_map (fun ii => map (make_cell u u ii) (seq 0 n)) (seq 0 n).

Lemma first_break : nth 0 u 0 == Np.eps.
Proof.
  rewrite (linspace_nth _ _ _ _ _ Hn (Nat.le_0_l n) Hu). simpl (Z.of_nat 0).
  unfold inject_Z at 1. field. nonzero_inject.
Qed.

Lemma last_break : nth n u 0 == 1 - Np.eps.
Proof.
  rewrite (linspace_nth _ _ _ _ _ Hn (Nat.le_refl n) Hu).
  field. nonzero_inject.
Qed.

Lemma grid_covers (s : Q * Q) :
  in_grid_range s -> some_hit cells (n * n) s = true.
Proof.
  intros (Hx0 & Hx1 & Hy0 & Hy1).
  rewrite <- first_break in Hx0, Hy0. rewrite <- last_break in Hx1, Hy1.
  destruct (locate_interval u (fst s) n Hx0 Hx1) as (i & Hi & Hix).
  destruct (locate_interval u (snd s) n Hy0 Hy1) as (j & Hj & Hjy).
  apply some_hit_iff. exists (i * n + j)%nat. split; [nia|].
  unfold cell_holds, cells.
  rewrite (nested_nth_error _ (make_cell u u) n n 0 i j Hi Hj). simpl.
  apply in_zone_iff. unfold cell_u1, cell_u2, cell_v1, cell_v2. simpl. tauto.
Qed.

Lemma grid_holds_in_range (jj : nat) (s : Q * Q) :
  cell_holds cells jj s = true -> in_grid_range s.
Proof.
  unfold cell_holds. destruct (nth_error cells jj) as [c|] eqn:Ec; [|discriminate].
  intro H. apply in_zone_iff in H as (Hx0 & Hx1 & Hy0 & Hy1).
  apply nth_error_In in Ec. apply nested_In in Ec as (i & j & Hi & Hj & ->).
  unfold cell_u1, cell_u2, cell_v1, cell_v2 in *. simpl in *.
  assert (Hi0 : (i <= n)%nat) by lia. assert (Hi1 : (i + 1 <= n)%nat) by lia.
  assert (Hj0 : (j <= n)%nat) by lia. assert (Hj1 : (j + 1 <= n)%nat) by lia.
  pose proof (break_point_bounds _ _ _ Hn Hi0 Hu) as [? ?].
  pose proof (break_point_bounds _ _ _ Hn Hi1 Hu) as [? ?].
  pose proof (break_point_bounds _ _ _ Hn Hj0 Hu) as [? ?].
  pose proof (break_point_bounds _ _ _ Hn Hj1 Hu) as [? ?].
  unfold in_grid_range. repeat split; lra.
Qed.

Lemma grid_some_hit_iff (s : Q * Q) :
  some_hit cells (n * n) s = true <-> in_grid_range s.
Proof.
  split; [|apply grid_covers].
  intro H. apply some_hit_iff in H as (jj & _ & H).
  eapply grid_holds_in_range; eassumption.
Qed.

End GridGeometry.

(** ** The list of the records *)

Lemma fold_left_snoc (A B : Type) (g : A -> B) (xs : list A) (s : list B) :
  fold_left (fun acc x => acc ++ [g x]) xs s = s ++ map g xs.
Proof.
  revert s; induction xs as [|x xs IH]; intro s; simpl.
  - now rewrite app_nil_r.
  - rewrite IH, <- app_assoc. reflexivity.
Qed.

Lemma fold_left_append (A B : Type) (h : A -> list B) (xs : list A) (s : list B) :
  fold_left (fun acc x => acc ++ h x) xs s = s ++ flat_map h xs.
Proof.
  revert s; induction xs as [|x xs IH]; intro s; simpl.
  - now rewrite app_nil_r.
  - rewrite IH, <- app_assoc. reflexivity.
Qed.

Section Empirical.

Variable probability_integral_transform : ndarray -> ndarray.
Variables (X : ndarray) (K : Z) (coords_list : list coords).

Let U := probability_integral_transform X.

Hypothesis HU : wf_array U.
Hypothesis Hshape0 : shape0 U = shape0 X.
Hypothesis Hshape1 : shape1 U = shape1 X.
Hypothesis Hcells : _makeCoordsList K = Ok coords_list.
Hypothesis Hlen : List.length coords_list = Z.to_nat (K * K).

Lemma empirical_copulamnsig_spec :
  empirical_copulamnsig probability_integral_transform X K =
  Ok (flat_map
        (fun d1 => map (pair_record coords_list U K d1)
                       (range (d1 + 1) (Z.of_nat (shape1 X))))
        (range0 (Z.of_nat (shape1 X) - 1))).
Proof.
  unfold empirical_copulamnsig. rewrite Hcells. simpl. fold U.
  rewrite (for_each_ok _ _ _
    (fun acc d1 => acc ++ map (pair_record coords_list U K d1)
                              (range (d1 + 1) (Z.of_nat (shape1 X))))).
  - now rewrite fold_left_append.
  - intros d1 acc Hd1. unfold range0 in Hd1. apply in_seq in Hd1.
    rewrite (for_each_ok _ _ _
      (fun acc' d2 => acc' ++ [pair_record coords_list U K d1 d2])).
    + now rewrite fold_left_snoc.
    + intros d2 acc' Hd2. unfold range in Hd2. apply in_seq in Hd2.
      rewrite <- Hshape0.
      rewrite pair_esig_spec; try (rewrite Hshape1; lia); try assumption.
      * reflexivity.
      * apply HU.
Qed.


Lemma empirical_first_record :
  (2 <= shape1 X)%nat ->
  exists rest,
    empirical_copulamnsig probability_integral_transform X K =
    Ok (pair_record coords_list U K 0 1 :: rest).
Proof.
  intro HN. rewrite empirical_copulamnsig_spec. unfold range0, range.
  replace (Z.to_nat (Z.of_nat (shape1 X) - 1)) with (S (shape1 X - 2)) by lia.
  simpl flat_map.
  replace (Z.to_nat (Z.of_nat (shape1 X)) - 1)%nat with (S (shape1 X - 2)) by lia.
  simpl. eexists. reflexivity.
Qed.

End Empirical.

(** ** Counting *)

Lemma count_le_length (A : Type) (p : A -> bool) (l : list A) :
  (count p l <= List.length l)%nat.
Proof. apply filter_length_le. Qed.

Lemma count_full_iff (A : Type) (p : A -> bool) (l : list A) :
  count p l = List.length l <-> Forall (fun x => p x = true) l.
Proof.
  unfold count. induction l as [|x l IH]; simpl.
  - split; [constructor | reflexivity].
  - pose proof (filter_length_le p l) as Hle. destruct (p x) eqn:Ex; simpl.
    + split.
      * intro H. constructor; [assumption|]. apply IH. lia.
      * intro H. inversion H; subst. f_equal. now apply IH.
    + split; [lia|]. intro H. inversion H; congruence.
Qed.

(** A count of [c] hits, each worth [1/m], is not negative. *)
Lemma share_nonneg (c m : nat) :
  0 <= inject_Z (Z.of_nat c) * (1 / inject_Z (Z.of_nat m)).
Proof.
  assert (Hc0 : 0 <= inject_Z (Z.of_nat c)) by (rewrite <- (Zle_Qle 0); lia).
  destruct (Nat.eq_dec m 0) as [->|Hm].
  - assert (E : inject_Z (Z.of_nat c) * (1 / inject_Z (Z.of_nat 0)) == 0)
      by (simpl; unfold Qdiv, Qinv; simpl; ring).
    rewrite E. apply Qle_refl.
  - set (q := inject_Z (Z.of_nat m)).
    assert (Hq : 0 < q) by (unfold q; rewrite <- (Zlt_Qlt 0); lia).
    assert (Hinv : 0 < 1 / q) by (apply Qlt_shift_div_l; [assumption|lra]).
    apply Qmult_le_0_compat; lra.
Qed.

(** ** The facts about one record *)

Lemma pair_record_facts (K : Z) (u : list Q) (U : ndarray) (d1 d2 : nat) :
  (1 <= K)%Z ->
  List.length (item U) = shape0 U ->
  Np.linspace (0 + Np.eps) (1 - Np.eps) (Z.of_nat (Z.to_nat K) + 1) = Ok u ->
  let coords_list :=
    flat_map (fun ii => map (make_cell u u ii) (seq 0 (Z.to_nat K)))
             (seq 0 (Z.to_nat K)) in
  let r := pair_record coords_list U K d1 d2 in
  let ss := samples U d1 d2 in
  let w := 1 / inject_Z (Z.of_nat (shape0 U)) in
  List.length (esig r) = Z.to_nat (K * K) /\
  (forall jj, (jj < Z.to_nat (K * K))%nat ->
     nth jj (esig r) 0 ==
     inject_Z (Z.of_nat (count (first_hit coords_list jj) ss)) * w) /\
  Np.sum (esig r) ==
    inject_Z (Z.of_nat (count (some_hit coords_list (Z.to_nat (K * K))) ss)) * w /\
  (count (some_hit coords_list (Z.to_nat (K * K))) ss <= shape0 U)%nat /\
  (forall x, In x (esig r) -> 0 <= x) /\
  (forall s, some_hit coords_list (Z.to_nat (K * K)) s = true <-> in_grid_range s) /\
  (count (some_hit coords_list (Z.to_nat (K * K))) ss = shape0 U <->
   Forall in_grid_range ss).
Proof.
  intros HK Hrows Hu coords_list r ss w.
  assert (Hn : (1 <= Z.to_nat K)%nat) by lia.
  assert (EKK : Z.to_nat (K * K) = (Z.to_nat K * Z.to_nat K)%nat) by lia.
  assert (Hss : List.length ss = shape0 U)
    by (unfold ss, samples; now rewrite length_map).
  assert (Hz : (Z.to_nat (K * K) <= List.length (Np.zeros (K * K)))%nat)
    by (rewrite zeros_length; lia).
  assert (Hlen : List.length (esig r) = Z.to_nat (K * K)).
  { unfold r, pair_record. simpl. now rewrite tally_length, zeros_length. }
  assert (Hentry : forall jj, (jj < Z.to_nat (K * K))%nat ->
     nth jj (esig r) 0 ==
     inject_Z (Z.of_nat (count (first_hit coords_list jj) ss)) * w).
  { intros jj Hjj. unfold r, pair_record. simpl.
    rewrite (tally_entry _ _ _ _ _ _ Hz Hjj), zeros_nth. fold ss. unfold w. ring. }
  assert (Hsum : Np.sum (esig r) ==
    inject_Z (Z.of_nat (count (some_hit coords_list (Z.to_nat (K * K))) ss)) * w).
  { unfold r, pair_record. simpl.
    rewrite (tally_sum _ _ _ _ _ Hz), zeros_sum. fold ss. unfold w. ring. }
  assert (Hgeo : forall s,
     some_hit coords_list (Z.to_nat (K * K)) s = true <-> in_grid_range s).
  { intro s. rewrite EKK. apply grid_some_hit_iff; assumption. }
  split; [exact Hlen|]. split; [exact Hentry|]. split; [exact Hsum|].
  split; [rewrite <- Hss; apply count_le_length|].
  split.
  { intros x Hx. apply (In_nth _ _ 0) in Hx as (jj & Hjj & <-).
    rewrite Hlen in Hjj. rewrite (Hentry jj Hjj). apply share_nonneg. }
  split; [exact Hgeo|].
  rewrite <- Hss, count_full_iff, !Forall_forall.
  split; intros H s Hs; apply Hgeo, H, Hs.
Qed.

(* ================================================================= *)
(** ** The grid: errors *)

Lemma makeCoordsList_small (K : Z) :
  (-1 <= K < 1)%Z -> _makeCoordsList K = Ok [].
Proof.
  intro H. assert (K = 0 \/ K = -1)%Z as [-> | ->] by lia; reflexivity.
Qed.

Lemma makeCoordsList_does_not_raise (K : Z) :
  (-1 <= K)%Z -> exists coords_list, _makeCoordsList K = Ok coords_list.
Proof.
  intro H. destruct (Z_lt_le_dec K 1) as [L|G].
  - exists []. apply makeCoordsList_small. lia.
  - destruct (makeCoordsList_ok K G) as (u & _ & E). eexists. exact E.
Qed.

(** C8, as the code has it: [_makeCoordsList] raises no error for
    [K >= 1], where it returns [K*K] cells; it does not check [K]:
    [K = 0] and [K = -1] return the empty grid without an error, and a
    smaller [K] is refused only by [np.linspace], which is asked for a
    negative number of points. *)
Theorem makeCoordsList_errors (K : Z) :
  ((1 <= K)%Z ->
     exists coords_list,
       _makeCoordsList K = Ok coords_list /\
       List.length coords_list = Z.to_nat (K * K)) /\
  ((-1 <= K < 1)%Z -> _makeCoordsList K = Ok []) /\
  ((K < -1)%Z -> _makeCoordsList K = Raise ValueError).
Proof.
  split; [|split].
  - intro HK. destruct (makeCoordsList_ok K HK) as (u & _ & E).
    eexists. split; [exact E|]. rewrite nested_length. lia.
  - apply makeCoordsList_small.
  - intro HK. unfold _makeCoordsList.
    rewrite linspace_negative by lia. reflexivity.
Qed.

Lemma makeCoordsList_errors_witness :
  ((1 <= 3)%Z /\
   exists coords_list,
     _makeCoordsList 3 = Ok coords_list /\
     List.length coords_list = Z.to_nat (3 * 3)) /\
  ((-1 <= 0 < 1)%Z /\ _makeCoordsList 0 = Ok []) /\
  ((-5 < -1)%Z /\ _makeCoordsList (-5) = Raise ValueError).
Proof.
  split; [|split].
  - split; [lia | apply (proj1 (makeCoordsList_errors 3)); lia].
  - split; [lia | apply (proj1 (proj2 (makeCoordsList_errors 0))); lia].
  - split; [lia | apply (proj2 (proj2 (makeCoordsList_errors (-5)))); lia].
Defined.

(** C8 as stated fails: the resolutions [K = 0] and [K = -1] are below 1
    and are not rejected; the empty grid is returned. *)
Lemma makeCoordsList_accepts_zero :
  (0 < 1)%Z /\ _makeCoordsList 0 = Ok [] /\ ~ rejects (_makeCoordsList 0) /\
  (-1 < 1)%Z /\ _makeCoordsList (-1) = Ok [] /\ ~ rejects (_makeCoordsList (-1)).
Proof.
  repeat split; try lia; intros [e He]; discriminate He.
Qed.

(* ================================================================= *)
(** ** The empirical signature *)

(** C10, as the code has it: each sample adds [1.0/M] to at most one
    cell, the first in the order of the grid whose half-open test it
    passes, and a sample with a coordinate at or above the last break
    point [1 - eps] is held by no cell.  Up to the rounding of the
    additions, an entry of a per-pair vector is [c/M] for the number [c]
    of the samples whose first cell it is, and the entries sum to [h/M]
    for the number [h] of the samples that some cell holds; [c] and [h]
    are at most [M].  The bound 1 is a bound on [h/M]: the rounded sum
    can exceed it. *)
Theorem empirical_rows_hit_one_cell
        (pit : ndarray -> ndarray) (X : ndarray) (K : Z) :
  (1 <= K)%Z ->
  wf_array (pit X) -> shape0 (pit X) = shape0 X -> shape1 (pit X) = shape1 X ->
  exists coords_list records,
    _makeCoordsList K = Ok coords_list /\
    empirical_copulamnsig pit X K = Ok records /\
    (forall s j j',
       first_hit coords_list j s = true -> first_hit coords_list j' s = true ->
       j = j') /\
    (forall s, 1 - Np.eps <= fst s \/ 1 - Np.eps <= snd s ->
       some_hit coords_list (Z.to_nat (K * K)) s = false) /\
    forall r, In r records ->
      exists d1 d2,
        (d1 < d2 < shape1 X)%nat /\
        rv1 r = (Z.of_nat d1 + 1)%Z /\ rv2 r = (Z.of_nat d2 + 1)%Z /\
        esig r =
          fold_left
            (tally_step coords_list (Z.of_nat (shape0 X)) (Z.to_nat (K * K)))
            (samples (pit X) d1 d2) (Np.zeros (K * K)) /\
        (forall jj, (jj < Z.to_nat (K * K))%nat ->
           (count (first_hit coords_list jj) (samples (pit X) d1 d2)
            <= shape0 X)%nat /\
           nth jj (esig r) 0 ==
           inject_Z (Z.of_nat (count (first_hit coords_list jj)
                                     (samples (pit X) d1 d2))) *
           (1 / inject_Z (Z.of_nat (shape0 X)))) /\
        (count (some_hit coords_list (Z.to_nat (K * K)))
               (samples (pit X) d1 d2) <= shape0 X)%nat /\
        Np.sum (esig r) ==
          inject_Z (Z.of_nat (count (some_hit coords_list (Z.to_nat (K * K)))
                                    (samples (pit X) d1 d2))) *
          (1 / inject_Z (Z.of_nat (shape0 X))).
Proof.
  intros HK HU H0 H1.
  destruct (makeCoordsList_ok K HK) as (u & Hu & Hcells).
  set (coords_list := flat_map (fun ii => map (make_cell u u ii) (seq 0 (Z.to_nat K)))
                               (seq 0 (Z.to_nat K))) in *.
  assert (Hlen : List.length coords_list = Z.to_nat (K * K))
    by (unfold coords_list; rewrite nested_length; lia).
  exists coords_list. eexists.
  split; [exact Hcells|].
  split; [apply (empirical_copulamnsig_spec pit X K coords_list HU H0 H1 Hcells Hlen)|].
  split; [intros s j j'; apply first_hit_unique|].
  split.
  { intros s Hs. destruct (some_hit coords_list (Z.to_nat (K * K)) s) eqn:E; [|reflexivity].
    exfalso.
    destruct (pair_record_facts K u (pit X) 0 0 HK (proj1 HU) Hu)
      as (_ & _ & _ & _ & _ & Hgeo & _).
    apply Hgeo in E. destruct E as (_ & Hx & _ & Hy). lra. }
  intros r Hr.
  apply in_flat_map in Hr as (d1 & Hd1 & Hr).
  apply in_map_iff in Hr as (d2 & <- & Hd2).
  unfold range0 in Hd1. unfold range in Hd2. apply in_seq in Hd1, Hd2.
  exists d1, d2.
  destruct (pair_record_facts K u (pit X) d1 d2 HK (proj1 HU) Hu)
    as (_ & Hentry & Hsum & Hle & _).
  fold coords_list in Hentry, Hsum, Hle. rewrite H0 in Hentry, Hsum, Hle.
  assert (Hss : List.length (samples (pit X) d1 d2) = shape0 X).
  { unfold samples. rewrite length_map, <- H0. exact (proj1 HU). }
  split; [lia|]. split; [reflexivity|]. split; [reflexivity|].
  split; [unfold pair_record; simpl; now rewrite H0|].
  split.
  { intros jj Hjj. split; [rewrite <- Hss; apply count_le_length|].
    exact (Hentry jj Hjj). }
  split; [exact Hle | exact Hsum].
Qed.

Lemma wf_U_inner : wf_array U_inner.
Proof. split; [reflexivity | repeat constructor]. Qed.

Lemma empirical_rows_hit_one_cell_witness :
  (1 <= 2)%Z /\
  wf_array ((fun _ => U_inner) X_2x2) /\
  shape0 ((fun _ => U_inner) X_2x2) = shape0 X_2x2 /\
  shape1 ((fun _ => U_inner) X_2x2) = shape1 X_2x2 /\
  exists coords_list records,
    _makeCoordsList 2 = Ok coords_list /\
    empirical_copulamnsig (fun _ => U_inner) X_2x2 2 = Ok records /\
    (forall s j j',
       first_hit coords_list j s = true -> first_hit coords_list j' s = true ->
       j = j') /\
    (forall s, 1 - Np.eps <= fst s \/ 1 - Np.eps <= snd s ->
       some_hit coords_list (Z.to_nat (2 * 2)) s = false) /\
    forall r, In r records ->
      exists d1 d2,
        (d1 < d2 < shape1 X_2x2)%nat /\
        rv1 r = (Z.of_nat d1 + 1)%Z /\ rv2 r = (Z.of_nat d2 + 1)%Z /\
        esig r =
          fold_left
            (tally_step coords_list (Z.of_nat (shape0 X_2x2)) (Z.to_nat (2 * 2)))
            (samples U_inner d1 d2) (Np.zeros (2 * 2)) /\
        (forall jj, (jj < Z.to_nat (2 * 2))%nat ->
           (count (first_hit coords_list jj) (samples U_inner d1 d2)
            <= shape0 X_2x2)%nat /\
           nth jj (esig r) 0 ==
           inject_Z (Z.of_nat (count (first_hit coords_list jj)
                                     (samples U_inner d1 d2))) *
           (1 / inject_Z (Z.of_nat (shape0 X_2x2)))) /\
        (count (some_hit coords_list (Z.to_nat (2 * 2)))
               (samples U_inner d1 d2) <= shape0 X_2x2)%nat /\
        Np.sum (esig r) ==
          inject_Z (Z.of_nat (count (some_hit coords_list (Z.to_nat (2 * 2)))
                                    (samples U_inner d1 d2))) *
          (1 / inject_Z (Z.of_nat (shape0 X_2x2))).
Proof.
  split; [lia|]. split; [exact wf_U_inner|].
  split; [reflexivity|]. split; [reflexivity|].
  apply (empirical_rows_hit_one_cell (fun _ => U_inner) X_2x2 2);
    [lia | exact wf_U_inner | reflexivity | reflexivity].
Defined.

(** C10 as stated fails on doubles: nine samples in the one cell of the
    grid for [K = 1] add [1.0/9] nine times, and the entry, which is the
    sum of the vector, is [1.0000000000000002], the double that follows
    [1.0]: it is above 1, and it is not [9 * (1.0/9)]. *)
Lemma empirical_sum_above_one :
  exists r,
    Binary64.empirical_copulamnsig (fun U => U) Binary64.U_nine 1 = Ok [r] /\
    Binary64.esig r = [Binary64.next_after_one] /\
    PrimFloat.ltb PrimFloat.one (Binary64.sum (Binary64.esig r)) = true /\
    (exists q, Binary64.to_Q (Binary64.sum (Binary64.esig r)) = Some q /\
               q == 1 + Np.eps) /\
    PrimFloat.eqb (Binary64.sum (Binary64.esig r))
                  (PrimFloat.mul (Binary64.of_int 9)
                                 (PrimFloat.div PrimFloat.one (Binary64.of_int 9)))
      = false.
Proof.
  eexists. split; [vm_compute; reflexivity|].
  split; [reflexivity|]. split; [vm_compute; reflexivity|].
  split; [|vm_compute; reflexivity].
  eexists. split; [vm_compute; reflexivity | reflexivity].
Qed.




(** C9, as the code has it: a matrix with fewer than two columns is not
    rejected; the loops over the pairs of columns are empty and the
    empty list of records is returned. *)
Theorem empirical_few_columns
        (pit : ndarray -> ndarray) (X : ndarray) (K : Z) :
  (shape1 X < 2)%nat -> (-1 <= K)%Z ->
  empirical_copulamnsig pit X K = Ok [].
Proof.
  intros HN HK. unfold empirical_copulamnsig.
  destruct (makeCoordsList_does_not_raise K HK) as (coords_list & ->). simpl.
  unfold range0.
  replace (Z.to_nat (Z.of_nat (shape1 X) - 1)) with 0%nat by lia. reflexivity.
Qed.

Lemma empirical_few_columns_witness :
  (shape1 X_3x1 < 2)%nat /\ (-1 <= 4)%Z /\
  empirical_copulamnsig (fun A => A) X_3x1 4 = Ok [].
Proof.
  split; [simpl; lia|]. split; [lia|].
  apply (empirical_few_columns (fun A => A) X_3x1 4); [simpl; lia | lia].
Defined.

(** C9 as stated fails: a matrix of three samples of one variable is
    not rejected (the transform is called, here the identity, but its
    result is never read). *)
Lemma empirical_one_column_accepted :
  (shape1 X_3x1 < 2)%nat /\
  empirical_copulamnsig (fun A => A) X_3x1 4 = Ok [] /\
  ~ rejects (empirical_copulamnsig (fun A => A) X_3x1 4).
Proof.
  split; [simpl; lia|]. split; [reflexivity|].
  intros [e He]. discriminate He.
Qed.

(* ================================================================= *)
(** ** Dictionaries *)

Lemma dict_get_set (d : dict) (k k' : string) (v : distance) :
  dict_get (dict_set d k v) k' =
  if String.eqb k k' then Some v else dict_get d k'.
Proof.
  induction d as [|[k0 v0] d IH]; simpl.
  - destruct (String.eqb_spec k k'); reflexivity.
  - destruct (String.eqb_spec k0 k) as [->|Hne]; simpl.
    + destruct (String.eqb_spec k k'); reflexivity.
    + destruct (String.eqb_spec k0 k') as [->|Hne'].
      * destruct (String.eqb_spec k k'); [congruence | reflexivity].
      * exact IH.
Qed.

Lemma dict_set_keys (d : dict) (k : string) (v : distance) (k' : string) :
  In k' (keys (dict_set d k v)) <-> k' = k \/ In k' (keys d).
Proof.
  unfold keys. induction d as [|[k0 v0] d IH]; simpl.
  - intuition.
  - destruct (String.eqb_spec k0 k) as [->|Hne]; simpl; [intuition|].
    rewrite IH. intuition.
Qed.

Lemma dict_set_NoDup (d : dict) (k : string) (v : distance) :
  NoDup (keys d) -> NoDup (keys (dict_set d k v)).
Proof.
  unfold keys. induction d as [|[k0 v0] d IH]; simpl; intro H.
  - constructor; [intros []|constructor].
  - inversion H as [|? ? Hnotin Hnd]; subst.
    destruct (String.eqb_spec k0 k) as [->|Hne]; simpl.
    + constructor; assumption.
    + constructor; [|now apply IH].
      intro Hin. apply (dict_set_keys d k v k0) in Hin as [E|Hin]; [congruence|].
      contradiction.
Qed.

Lemma dict_get_In (d : dict) (k : string) (v : distance) :
  NoDup (keys d) -> In (k, v) d -> dict_get d k = Some v.
Proof.
  unfold keys. induction d as [|[k0 v0] d IH]; simpl; intros Hnd Hin; [contradiction|].
  inversion Hnd as [|? ? Hnotin Hnd']; subst.
  destruct Hin as [[= -> ->]|Hin].
  - now rewrite String.eqb_refl.
  - destruct (String.eqb_spec k0 k) as [->|Hne]; [|now apply IH].
    exfalso. apply Hnotin. apply in_map_iff. exists (k, v). split; [reflexivity|assumption].
Qed.


(* ================================================================= *)
(** ** The search of the minimum *)

Lemma dist_lt_trans_le (a b c : distance) :
  dist_lt a b = true -> dist_lt c b = false -> dist_lt a c = true.
Proof.
  destruct a as [x|], b as [y|], c as [z|]; simpl; intros H1 H2;
    try discriminate; try reflexivity.
  apply Qlt_bool_iff in H1. apply Qlt_bool_iff.
  unfold Qlt_bool in H2. apply negb_false_iff, Qle_bool_iff in H2.
  eapply Qlt_le_trans; eassumption.
Qed.

Lemma dist_lt_trans (a b c : distance) :
  dist_lt a b = true -> dist_lt b c = true -> dist_lt a c = true.
Proof.
  destruct a as [x|], b as [y|], c as [z|]; simpl; intros H1 H2;
    try discriminate; try reflexivity.
  apply Qlt_bool_iff in H1, H2. apply Qlt_bool_iff.
  eapply Qlt_trans; eassumption.
Qed.


(** What the search returns: nothing when no divergence is finite,
    otherwise the first item, in the order of the iteration, whose
    divergence is the least. *)
Lemma search_min_spec (items : list (string * distance)) :
  (search_min items = (Inf, None) /\
   forall kv, In kv items -> snd kv = Inf) \/
  (exists f d l1 l2,
     search_min items = (Finite d, Some f) /\
     items = l1 ++ (f, Finite d) :: l2 /\
     (forall kv, In kv l1 -> dist_lt (Finite d) (snd kv) = true) /\
     (forall kv, In kv l2 -> dist_lt (snd kv) (Finite d) = false)).
Proof.
  induction items as [|[g dg] items IH] using rev_ind.
  - left. split; [reflexivity | intros kv []].
  - unfold search_min in *. rewrite fold_left_app. simpl.
    destruct IH as [[E Hall] | (f & d & l1 & l2 & E & -> & H1 & H2)]; rewrite E.
    + unfold search_step. simpl. destruct dg as [x|]; simpl.
      * right. exists g, x, items, []. repeat split.
        -- intros kv Hkv. rewrite (Hall kv Hkv). reflexivity.
        -- intros kv [].
      * left. split; [reflexivity|]. intros kv Hkv.
        apply in_app_or in Hkv as [Hkv|[<-|[]]]; [now apply Hall | reflexivity].
    + unfold search_step. simpl. destruct (dist_lt dg (Finite d)) eqn:Elt.
      * right. destruct dg as [x|]; [|discriminate].
        exists g, x, (l1 ++ (f, Finite d) :: l2), []. repeat split.
        -- intros kv Hkv. apply in_app_or in Hkv as [Hkv|[<-|Hkv]].
           ++ apply (dist_lt_trans (Finite x) (Finite d) (snd kv) Elt).
              now apply H1.
           ++ exact Elt.
           ++ apply (dist_lt_trans_le (Finite x) (Finite d) (snd kv) Elt).
              now apply H2.
        -- intros kv [].
      * right. exists f, d, l1, (l2 ++ [(g, dg)]). repeat split.
        -- now rewrite <- app_assoc.
        -- exact H1.
        -- intros kv Hkv. apply in_app_or in Hkv as [Hkv|[<-|[]]];
             [now apply H2 | exact Elt].
Qed.

(* ================================================================= *)
(** ** The loop over the families *)

Lemma for_each_prefix (A S : Type) (body : A -> S -> result S)
      (P : list A -> S -> Prop) (xs : list A) (s0 : S) :
  P [] s0 ->
  (forall pre x s, P pre s -> exists s', body x s = Ok s' /\ P (pre ++ [x]) s') ->
  exists s', for_each xs body s0 = Ok s' /\ P xs s'.
Proof.
  intros H0 Hstep.
  assert (G : forall xs pre s, P pre s ->
            exists s', for_each xs body s = Ok s' /\ P (pre ++ xs) s').
  { clear xs. induction xs as [|x xs IH]; intros pre s Hs; simpl.
    - exists s. rewrite app_nil_r. split; [reflexivity|assumption].
    - destruct (Hstep pre x s Hs) as (s1 & -> & H1).
      destruct (IH (pre ++ [x]) s1 H1) as (s2 & E & H2).
      exists s2. rewrite <- app_assoc in H2. split; assumption. }
  apply (G xs [] s0 H0).
Qed.

Section FamilyLoop.

Variable cvolume : string -> point -> point -> point -> point -> dependency -> Q.
Variable entropy : list Q -> list Q -> distance.
Variables (K : Z) (empirical_mnsig : list Q).
Hypothesis HK : (1 <= K)%Z.

Lemma copulamnsig_ok (family : string) (args : dependency) :
  exists v t, copulamnsig cvolume family K args = Ok (v :: t).
Proof.
  destruct (makeCoordsList_ok K HK) as (u & _ & E).
  unfold copulamnsig. rewrite E. simpl.
  set (cells := flat_map _ _).
  assert (Hlen : List.length cells = (Z.to_nat K * Z.to_nat K)%nat)
    by apply nested_length.
  destruct cells as [|c cells]; [simpl in Hlen; nia|].
  simpl. eauto.
Qed.

Lemma evaluate_ok (family : string) (tau : Q) (st : loop_state) :
  exists v t,
    copulamnsig cvolume family K (kendall tau) = Ok (v :: t) /\
    evaluate cvolume entropy K empirical_mnsig family tau st =
    Ok (mkState tau
          (dict_set (distances st) family
                    (entropy (Np.spacing1 :: t) empirical_mnsig))
          (built st ++ [(family, tau)])).
Proof.
  destruct (copulamnsig_ok family (kendall tau)) as (v & t & E).
  exists v, t. split; [exact E|]. unfold evaluate. rewrite E. reflexivity.
Qed.

(** The two outcomes of the body: the family is excluded, or it is
    evaluated at some value that becomes the new [tau_hat]. *)
Lemma family_body_cases (family : string) (st : loop_state) :
  (is_restricted family = true /\ tau_hat st < neg_0_05 /\
   family_body cvolume entropy K empirical_mnsig family st =
   Ok (mkState (tau_hat st) (dict_set (distances st) family Inf) (built st))) \/
  (exists tau d,
     family_body cvolume entropy K empirical_mnsig family st =
     Ok (mkState tau (dict_set (distances st) family d)
                 (built st ++ [(family, tau)])) /\
     (is_restricted family = false -> tau = tau_hat st) /\
     (is_restricted family = true ->
        neg_0_05 <= tau_hat st /\
        ((tau_hat st < 0 /\ tau = 0) \/
         (1 <= tau_hat st /\ tau = 1 - Np.spacing1) \/
         (0 <= tau_hat st /\ tau_hat st < 1 /\ tau = tau_hat st)))).
Proof.
  assert (Hev : forall tau, exists d,
            evaluate cvolume entropy K empirical_mnsig family tau st =
            Ok (mkState tau (dict_set (distances st) family d)
                        (built st ++ [(family, tau)]))).
  { intro tau. destruct (evaluate_ok family tau st) as (v & t & _ & E). eauto. }
  assert (Hres : is_restricted family = true ->
            family_body cvolume entropy K empirical_mnsig family st =
            restricted cvolume entropy K empirical_mnsig family st).
  { unfold is_restricted, family_body. intro H.
    destruct (String.eqb (lower family) "clayton"); [reflexivity|].
    simpl in H. now rewrite H. }
  destruct (is_restricted family) eqn:Er.
  - rewrite (Hres eq_refl). unfold restricted.
    destruct (Qlt_bool (tau_hat st) neg_0_05) eqn:E1.
    { left. apply Qlt_bool_iff in E1. repeat split; assumption. }
    assert (L1 : neg_0_05 <= tau_hat st).
    { apply Qnot_lt_le. intro L. apply Qlt_bool_iff in L. congruence. }
    assert (E1' : Qle_bool neg_0_05 (tau_hat st) = true)
      by now apply Qle_bool_iff.
    rewrite E1'. simpl. right.
    destruct (Qlt_bool (tau_hat st) 0) eqn:E2.
    { destruct (Hev 0) as [d E]. exists 0, d.
      apply Qlt_bool_iff in E2.
      split; [exact E|]. split; [discriminate|]. intros _. split; [exact L1|].
      left. split; [assumption|reflexivity]. }
    assert (L2 : 0 <= tau_hat st).
    { apply Qnot_lt_le. intro L. apply Qlt_bool_iff in L. congruence. }
    destruct (Qle_bool 1 (tau_hat st)) eqn:E3.
    { destruct (Hev (1 - Np.spacing1)) as [d E]. exists (1 - Np.spacing1), d.
      apply Qle_bool_iff in E3.
      split; [exact E|]. split; [discriminate|]. intros _. split; [exact L1|].
      right. left. split; [assumption|reflexivity]. }
    destruct (Hev (tau_hat st)) as [d E]. exists (tau_hat st), d.
    assert (L3 : tau_hat st < 1).
    { apply Qnot_le_lt. intro L. apply Qle_bool_iff in L. congruence. }
    split; [exact E|]. split; [discriminate|]. intros _. split; [exact L1|].
    right. right. repeat split; assumption.
  - right. destruct (Hev (tau_hat st)) as [d E]. exists (tau_hat st), d.
    split; [|split; [reflexivity|discriminate]].
    rewrite <- E. unfold family_body, is_restricted in *.
    apply orb_false_iff in Er as [-> ->]. reflexivity.
Qed.

End FamilyLoop.

Lemma for_each_app (A S : Type) (body : A -> S -> result S)
      (xs ys : list A) (s : S) :
  for_each (xs ++ ys) body s =
  Py.bind (for_each xs body s) (fun s' => for_each ys body s').
Proof.
  revert s; induction xs as [|x xs IH]; intro s; simpl; [reflexivity|].
  destruct (body x s); simpl; [apply IH | reflexivity].
Qed.

Lemma dict_set_key_order (d : dict) (k : string) (v : distance) :
  keys (dict_set d k v) = insert_key (keys d) k.
Proof.
  unfold insert_key, keys. induction d as [|[k0 v0] d IH]; simpl; [reflexivity|].
  rewrite (String.eqb_sym k k0).
  destruct (String.eqb_spec k0 k) as [->|Hne]; simpl; [reflexivity|].
  rewrite IH. destruct (existsb (String.eqb k) (map fst d)); reflexivity.
Qed.

Lemma key_order_snoc (fs : list string) (f : string) :
  key_order (fs ++ [f]) = insert_key (key_order fs) f.
Proof. unfold key_order. now rewrite fold_left_app. Qed.

Lemma insert_key_In (ks : list string) (k k' : string) :
  In k' (insert_key ks k) <-> k' = k \/ In k' ks.
Proof.
  unfold insert_key. destruct (existsb (String.eqb k) ks) eqn:E.
  - apply existsb_exists in E as (x & Hx & Ex).
    apply String.eqb_eq in Ex. subst x. intuition (subst; assumption).
  - rewrite in_app_iff. simpl. intuition.
Qed.

Lemma key_order_In (fs : list string) (f : string) :
  In f (key_order fs) <-> In f fs.
Proof.
  induction fs as [|g fs IH] using rev_ind; [reflexivity|].
  rewrite key_order_snoc, insert_key_In, IH, in_app_iff. simpl. intuition.
Qed.

Section FamilyLoopInvariants.

Variable cvolume : string -> point -> point -> point -> point -> dependency -> Q.
Variable entropy : list Q -> list Q -> distance.
Variables (K : Z) (empirical_mnsig : list Q).
Hypothesis HK : (1 <= K)%Z.

Let body := family_body cvolume entropy K empirical_mnsig.

(** The loop ends, and the keys of [distances] are the candidates, each
    at the place of its first insertion. *)
Lemma family_loop_keys (tau : Q) (family_search : list string) :
  exists st,
    family_loop cvolume entropy K empirical_mnsig tau family_search = Ok st /\
    NoDup (keys (distances st)) /\
    keys (distances st) = key_order family_search.
Proof.
  unfold family_loop.
  apply (for_each_prefix _ _ body
           (fun pre st => NoDup (keys (distances st)) /\
                          keys (distances st) = key_order pre)).
  - split; [constructor | reflexivity].
  - intros pre f st [Hnd Hk].
    destruct (family_body_cases cvolume entropy K empirical_mnsig HK f st)
      as [(_ & _ & E) | (t & d & E & _)];
      (eexists; split; [exact E|]; simpl; split;
       [now apply dict_set_NoDup
       | now rewrite dict_set_key_order, key_order_snoc, Hk]).
Qed.

(** Below the threshold [-0.05] every restricted family is excluded and
    [tau_hat] keeps its value. *)
Lemma family_loop_excludes (tau : Q) (family_search : list string) :
  tau < neg_0_05 ->
  exists st,
    family_loop cvolume entropy K empirical_mnsig tau family_search = Ok st /\
    tau_hat st = tau /\
    NoDup (keys (distances st)) /\
    keys (distances st) = key_order family_search /\
    (forall f, In f family_search -> is_restricted f = true ->
       dict_get (distances st) f = Some Inf) /\
    (forall f t, In (f, t) (built st) -> is_restricted f = false).
Proof.
  intro Htau. unfold family_loop.
  apply (for_each_prefix _ _ body
           (fun pre st =>
              tau_hat st = tau /\
              NoDup (keys (distances st)) /\
              keys (distances st) = key_order pre /\
              (forall f, In f pre -> is_restricted f = true ->
                 dict_get (distances st) f = Some Inf) /\
              (forall f t, In (f, t) (built st) -> is_restricted f = false))).
  - repeat split; try constructor; intros; contradiction.
  - intros pre f st (Ht & Hnd & Hk & Hex & Hb).
    destruct (family_body_cases cvolume entropy K empirical_mnsig HK f st)
      as [(Hr & _ & E) | (t & d & E & Hfree & Hres)].
    + eexists. split; [exact E|]. simpl.
      split; [exact Ht|]. split; [now apply dict_set_NoDup|].
      split; [now rewrite dict_set_key_order, key_order_snoc, Hk|].
      split; [|exact Hb].
      intros g Hg Hrg. rewrite dict_get_set.
      destruct (String.eqb_spec f g) as [->|Hne]; [reflexivity|].
      apply in_app_or in Hg as [Hg|[->|[]]]; [now apply Hex | congruence].
    + assert (Hnr : is_restricted f = false).
      { destruct (is_restricted f) eqn:Er; [|reflexivity].
        destruct (Hres eq_refl) as [L _]. rewrite Ht in L.
        exfalso. apply (Qlt_irrefl tau). eapply Qlt_le_trans; eassumption. }
      eexists. split; [exact E|]. simpl.
      split; [rewrite (Hfree Hnr); exact Ht|].
      split; [now apply dict_set_NoDup|].
      split; [now rewrite dict_set_key_order, key_order_snoc, Hk|].
      split.
      * intros g Hg Hrg. rewrite dict_get_set.
        destruct (String.eqb_spec f g) as [->|Hne]; [congruence|].
        apply in_app_or in Hg as [Hg|[->|[]]]; [now apply Hex | congruence].
      * intros g t' Hg. apply in_app_or in Hg as [Hg|[[= <- <-]|[]]];
          [now apply (Hb g t') | exact Hnr].
Qed.

(** Once [tau_hat] is 0 it stays 0, and every family is evaluated at 0. *)
Lemma family_loop_from_zero (family_search : list string) (st : loop_state) :
  tau_hat st = 0 ->
  exists st',
    for_each family_search body st = Ok st' /\
    tau_hat st' = 0 /\
    built st' = built st ++ map (fun g => (g, 0)) family_search.
Proof.
  revert st. induction family_search as [|f fs IH]; intros st H0; simpl.
  - exists st. rewrite app_nil_r. repeat split; assumption.
  - unfold body at 1.
    destruct (family_body_cases cvolume entropy K empirical_mnsig HK f st)
      as [(_ & L & _) | (t & d & E & Hfree & Hres)].
    { rewrite H0 in L. discriminate L. }
    assert (Ht : t = 0).
    { destruct (is_restricted f) eqn:Er.
      - destruct (Hres eq_refl) as [_ [[_ ->]|[[L _]|(_ & _ & ->)]]];
          [reflexivity | rewrite H0 in L; exfalso; apply L; reflexivity | exact H0].
      - rewrite (Hfree eq_refl). exact H0. }
    rewrite E. subst t.
    destruct (IH (mkState 0 (dict_set (distances st) f d) (built st ++ [(f, 0)]))
                 eq_refl) as (st' & E' & H0' & Hb').
    exists st'. split; [exact E'|]. split; [exact H0'|].
    rewrite Hb'. simpl. now rewrite <- app_assoc.
Qed.

(** The unrestricted families leave [tau_hat] as it is. *)
Lemma family_loop_unrestricted (family_search : list string) (st : loop_state) :
  Forall (fun g => is_restricted g = false) family_search ->
  exists st',
    for_each family_search body st = Ok st' /\
    tau_hat st' = tau_hat st /\
    built st' = built st ++ map (fun g => (g, tau_hat st)) family_search.
Proof.
  revert st. induction family_search as [|f fs IH]; intros st Hall; simpl.
  - exists st. rewrite app_nil_r. repeat split.
  - inversion Hall as [|? ? Hf Hfs]; subst. unfold body at 1.
    destruct (family_body_cases cvolume entropy K empirical_mnsig HK f st)
      as [(Hr & _ & _) | (t & d & E & Hfree & _)]; [congruence|].
    rewrite E. rewrite (Hfree Hf).
    destruct (IH (mkState (tau_hat st) (dict_set (distances st) f d)
                          (built st ++ [(f, tau_hat st)])) Hfs)
      as (st' & E' & Ht' & Hb').
    exists st'. split; [exact E'|]. split; [exact Ht'|].
    rewrite Hb'. simpl. now rewrite <- app_assoc.
Qed.

End FamilyLoopInvariants.

(* ================================================================= *)
(** ** The whole function *)

Section Selection.

Variable cvolume : string -> point -> point -> point -> point -> dependency -> Q.
Variable pit : ndarray -> ndarray.
Variable kendalls_tau : ndarray -> Q.
Variable entropy : list Q -> list Q -> distance.
Variable param : Type.
Variable invcopulastat : string -> dependency -> param.
Variable iteritems : dict -> list (string * distance).

Let run := optimalCopulaFamily cvolume pit kendalls_tau entropy invcopulastat iteritems.

Let sel := selected invcopulastat iteritems.

Lemma optimalCopulaFamily_inv (X : ndarray) (K : Z) (fs : list string)
      (f : string) (p : param) (t : Q) :
  run X K fs = Ok (f, p, t) ->
  exists emp st,
    family_loop cvolume entropy K emp (kendalls_tau X) fs = Ok st /\
    sel st = Ok (f, p, t).
Proof.
  unfold run, optimalCopulaFamily.
  destruct (empirical_copulamnsig pit X K) as [records|]; simpl; [|discriminate].
  destruct (getitem records 0) as [first|]; simpl; [|discriminate].
  destruct (family_loop _ _ _ _ _ _) as [st|] eqn:E; simpl; [|discriminate].
  intro H. eexists. exists st. split; [exact E | exact H].
Qed.

Lemma optimalCopulaFamily_run (X : ndarray) (K : Z) (fs : list string) :
  (1 <= K)%Z -> (2 <= shape1 X)%nat ->
  wf_array (pit X) -> shape0 (pit X) = shape0 X -> shape1 (pit X) = shape1 X ->
  exists emp st,
    family_loop cvolume entropy K emp (kendalls_tau X) fs = Ok st /\
    NoDup (keys (distances st)) /\
    keys (distances st) = key_order fs /\
    run X K fs = sel st.
Proof.
  intros HK HN HU H0 H1.
  destruct (makeCoordsList_ok K HK) as (u & Hu & Hcells).
  set (coords_list := flat_map _ _) in Hcells.
  assert (Hlen : List.length coords_list = Z.to_nat (K * K))
    by (unfold coords_list; rewrite nested_length; lia).
  destruct (empirical_first_record pit X K coords_list HU H0 H1 Hcells Hlen HN)
    as (rest & Hrec).
  set (first := pair_record coords_list (pit X) K 0 1) in Hrec.
  set (emp := Np.mask_zero_assign (esig first) Np.spacing1).
  destruct (family_loop_keys cvolume entropy K emp HK (kendalls_tau X) fs)
    as (st & E & Hnd & Hk).
  exists emp, st. split; [exact E|]. split; [exact Hnd|]. split; [exact Hk|].
  unfold run, optimalCopulaFamily. rewrite Hrec.
  unfold Py.bind at 1.
  change (getitem (first :: rest) 0) with (Ok first).
  unfold Py.bind at 1. cbv zeta. fold emp. rewrite E. reflexivity.
Qed.

(** The result, from the items in the order of their iteration. *)
Lemma selected_spec (st : loop_state) :
  (sel st = Raise UnboundLocalError /\
   forall kv, In kv (iteritems (distances st)) -> snd kv = Inf) \/
  (exists f d l1 l2,
     sel st = Ok (f, invcopulastat f (kendall (tau_hat st)), tau_hat st) /\
     iteritems (distances st) = l1 ++ (f, Finite d) :: l2 /\
     (forall kv, In kv l1 -> dist_lt (Finite d) (snd kv) = true) /\
     (forall kv, In kv l2 -> dist_lt (snd kv) (Finite d) = false)).
Proof.
  unfold sel, selected.
  destruct (search_min_spec (iteritems (distances st)))
    as [[E Hall] | (f & d & l1 & l2 & E & Hsplit & H1 & H2)]; rewrite E; simpl.
  - left. split; [reflexivity | exact Hall].
  - right. exists f, d, l1, l2. repeat split; assumption.
Qed.

End Selection.


(* ================================================================= *)
(** ** The epsilon substitution on the theoretical signature *)

(** C2 fails on the code.  The signature that [copulamnsig] returns is a
    Python list, so [mnsig[mnsig==0] = np.spacing(1)] is [mnsig[False] =
    np.spacing(1)], that is [mnsig[0] = np.spacing(1)]: the first entry
    is overwritten whatever its value and no other entry is touched, so
    the zeros elsewhere stay.  The divergence is computed from that
    list. *)
Theorem replace_zeros_list_overwrites_first
        (cvolume : string -> point -> point -> point -> point -> dependency -> Q)
        (entropy : list Q -> list Q -> distance)
        (K : Z) (empirical_mnsig : list Q) (family : string) (tau : Q)
        (st : loop_state) :
  (1 <= K)%Z ->
  exists v t,
    copulamnsig cvolume family K (kendall tau) = Ok (v :: t) /\
    replace_zeros_list (v :: t) = Ok (Np.spacing1 :: t) /\
    evaluate cvolume entropy K empirical_mnsig family tau st =
    Ok (mkState tau
          (dict_set (distances st) family
                    (entropy (Np.spacing1 :: t) empirical_mnsig))
          (built st ++ [(family, tau)])) /\
    replace_zeros_list [1 # 4; 0; 1 # 2; 1 # 4] =
      Ok [Np.spacing1; 0; 1 # 2; 1 # 4] /\
    replace_zeros_spec [1 # 4; 0; 1 # 2; 1 # 4] =
      [1 # 4; Np.spacing1; 1 # 2; 1 # 4].
Proof.
  intro HK.
  destruct (evaluate_ok cvolume entropy K empirical_mnsig HK family tau st)
    as (v & t & E1 & E2).
  exists v, t. repeat split; assumption || reflexivity.
Qed.

Lemma replace_zeros_list_overwrites_first_witness :
  (1 <= 2)%Z /\
  exists v t,
    copulamnsig cvolume_product "Gaussian" 2 (kendall (3 # 10)) = Ok (v :: t) /\
    replace_zeros_list (v :: t) = Ok (Np.spacing1 :: t) /\
    evaluate cvolume_product entropy_squares 2 [1 # 2; 0; 0; 1 # 2] "Gaussian"
             (3 # 10) (mkState (3 # 10) [] []) =
    Ok (mkState (3 # 10)
          (dict_set [] "Gaussian"
                    (entropy_squares (Np.spacing1 :: t) [1 # 2; 0; 0; 1 # 2]))
          ([] ++ [("Gaussian"%string, 3 # 10)])) /\
    replace_zeros_list [1 # 4; 0; 1 # 2; 1 # 4] =
      Ok [Np.spacing1; 0; 1 # 2; 1 # 4] /\
    replace_zeros_spec [1 # 4; 0; 1 # 2; 1 # 4] =
      [1 # 4; Np.spacing1; 1 # 2; 1 # 4].
Proof.
  split; [lia|].
  apply (replace_zeros_list_overwrites_first cvolume_product entropy_squares 2
           [1 # 2; 0; 0; 1 # 2] "Gaussian" (3 # 10) (mkState (3 # 10) [] [])).
  lia.
Defined.

(* ================================================================= *)
(** ** The clamp of [tau_hat] *)

(** C1 fails on the code.  The clamp is an assignment to the variable
    [tau_hat] itself: when the empirical value lies in [[-0.05, 0)] and a
    restricted family is met, [tau_hat] becomes 0 and stays 0; every
    later family, restricted or not, is evaluated at 0, the parameter is
    inverted from 0 and the 0 is returned.  Only the families before
    the first restricted one see the empirical value. *)
Theorem clamp_overwrites_tau_hat
        (cvolume : string -> point -> point -> point -> point -> dependency -> Q)
        (pit : ndarray -> ndarray) (kendalls_tau : ndarray -> Q)
        (entropy : list Q -> list Q -> distance)
        (param : Type) (invcopulastat : string -> dependency -> param)
        (iteritems : dict -> list (string * distance))
        (X : ndarray) (K : Z) (pre : list string) (f : string)
        (post : list string) :
  (1 <= K)%Z ->
  neg_0_05 <= kendalls_tau X -> kendalls_tau X < 0 ->
  Forall (fun g => is_restricted g = false) pre ->
  is_restricted f = true ->
  (forall emp, exists st,
     family_loop cvolume entropy K emp (kendalls_tau X) (pre ++ f :: post) = Ok st /\
     tau_hat st = 0 /\
     built st =
       map (fun g => (g, kendalls_tau X)) pre ++
       (f, 0) :: map (fun g => (g, 0)) post) /\
  (forall fam p t,
     optimalCopulaFamily cvolume pit kendalls_tau entropy invcopulastat
                         iteritems X K (pre ++ f :: post) = Ok (fam, p, t) ->
     t = 0 /\ p = invcopulastat fam (kendall 0)).
Proof.
  intros HK Hlo Hhi Hpre Hf.
  assert (Hloop : forall emp, exists st,
     family_loop cvolume entropy K emp (kendalls_tau X) (pre ++ f :: post) = Ok st /\
     tau_hat st = 0 /\
     built st =
       map (fun g => (g, kendalls_tau X)) pre ++
       (f, 0) :: map (fun g => (g, 0)) post).
  { intro emp. unfold family_loop. rewrite for_each_app.
    destruct (family_loop_unrestricted cvolume entropy K emp HK pre
                (mkState (kendalls_tau X) [] []) Hpre) as (st1 & E1 & Ht1 & Hb1).
    rewrite E1. simpl Py.bind. simpl in Ht1, Hb1.
    change (for_each (f :: post) (family_body cvolume entropy K emp) st1)
      with (match family_body cvolume entropy K emp f st1 with
            | Ok s' => for_each post (family_body cvolume entropy K emp) s'
            | Raise e => Raise e
            end).
    destruct (family_body_cases cvolume entropy K emp HK f st1)
      as [(_ & L & _) | (t & d & E & _ & Hres)].
    { rewrite Ht1 in L. exfalso. apply (Qlt_irrefl (kendalls_tau X)).
      eapply Qlt_le_trans; eassumption. }
    assert (Ht : t = 0).
    { destruct (Hres Hf) as [_ [[_ ->]|[[L _]|(L & _ & _)]]]; [reflexivity| |];
        rewrite Ht1 in L; exfalso; apply (Qlt_irrefl (kendalls_tau X)).
      - eapply Qlt_le_trans; [exact Hhi|]. eapply Qle_trans; [|exact L]. discriminate.
      - eapply Qlt_le_trans; eassumption. }
    subst t. rewrite E.
    destruct (family_loop_from_zero cvolume entropy K emp HK post
                (mkState 0 (dict_set (distances st1) f d) (built st1 ++ [(f, 0)]))
                eq_refl) as (st2 & E2 & Ht2 & Hb2).
    exists st2. split; [exact E2|]. split; [exact Ht2|].
    rewrite Hb2. simpl. rewrite Hb1. now rewrite <- app_assoc. }
  split; [exact Hloop|].
  intros fam p t Hrun.
  apply optimalCopulaFamily_inv in Hrun as (emp & st & E & Hsel).
  destruct (Hloop emp) as (st' & E' & Ht' & _).
  rewrite E in E'. injection E' as <-.
  unfold selected in Hsel.
  destruct (snd (search_min (iteritems (distances st)))); [|discriminate].
  injection Hsel as <- <- <-. rewrite Ht'. split; reflexivity.
Qed.

(** ** The iteration of CPython 2.7 on the dictionaries of the examples *)

Lemma cpython27_default_families (d : dict) :
  keys d = key_order default_families ->
  exists v1 v2 v3 v4,
    d = [("Gaussian"%string, v1); ("Clayton"%string, v2);
         ("Gumbel"%string, v3); ("Frank"%string, v4)] /\
    CPython27.iteritems d =
    [("Clayton"%string, v2); ("Gumbel"%string, v3);
     ("Gaussian"%string, v1); ("Frank"%string, v4)].
Proof.
  intro H. unfold keys in H. vm_compute in H.
  destruct d as [|[k1 v1] [|[k2 v2] [|[k3 v3] [|[k4 v4] [|? ?]]]]];
    try discriminate H.
  injection H as -> -> -> ->. exists v1, v2, v3, v4.
  split; reflexivity.
Qed.

Lemma cpython27_default_families_perm (d : dict) :
  keys d = key_order default_families -> Permutation (CPython27.iteritems d) d.
Proof.
  intro H. destruct (cpython27_default_families d H)
    as (v1 & v2 & v3 & v4 & -> & ->).
  apply Permutation_sym.
  apply (Permutation_cons_app [("Clayton"%string, v2); ("Gumbel"%string, v3)]
                              [("Frank"%string, v4)]).
  apply Permutation_refl.
Qed.

Lemma cpython27_two_restricted_perm (d : dict) :
  keys d = key_order ["Clayton"; "Gumbel"]%string ->
  Permutation (CPython27.iteritems d) d.
Proof.
  intro H. unfold keys in H. vm_compute in H.
  destruct d as [|[k1 v1] [|[k2 v2] [|? ?]]]; try discriminate H.
  injection H as -> ->. apply Permutation_refl.
Qed.

(* ================================================================= *)
(** ** The exclusion of the restricted families *)

(** C6: when the empirical [tau_hat] is below the double [-0.05]
    ([neg_0_05]), every Clayton or
    Gumbel candidate gets the divergence [+inf], no signature is built for
    it, [tau_hat] keeps its value, and the family returned, if any, is a
    candidate that is neither Clayton nor Gumbel. *)
Theorem restricted_family_excluded
        (cvolume : string -> point -> point -> point -> point -> dependency -> Q)
        (pit : ndarray -> ndarray) (kendalls_tau : ndarray -> Q)
        (entropy : list Q -> list Q -> distance)
        (param : Type) (invcopulastat : string -> dependency -> param)
        (iteritems : dict -> list (string * distance))
        (X : ndarray) (K : Z) (family_search : list string) :
  (1 <= K)%Z ->
  kendalls_tau X < neg_0_05 ->
  (forall d, keys d = key_order family_search -> Permutation (iteritems d) d) ->
  (forall emp, exists st,
     family_loop cvolume entropy K emp (kendalls_tau X) family_search = Ok st /\
     tau_hat st = kendalls_tau X /\
     forall f, In f family_search -> is_restricted f = true ->
       dict_get (distances st) f = Some Inf /\
       ~ In f (map fst (built st))) /\
  (forall f p t,
     optimalCopulaFamily cvolume pit kendalls_tau entropy invcopulastat
                         iteritems X K family_search = Ok (f, p, t) ->
     In f family_search /\ is_restricted f = false /\ t = kendalls_tau X).
Proof.
  intros HK Htau Hiter. split.
  - intro emp.
    destruct (family_loop_excludes cvolume entropy K emp HK (kendalls_tau X)
                family_search Htau) as (st & E & Ht & _ & _ & Hex & Hb).
    exists st. split; [exact E|]. split; [exact Ht|].
    intros f Hf Hr. split; [now apply Hex|].
    intro Hin. apply in_map_iff in Hin as ([g t] & <- & Hin).
    apply Hb in Hin. simpl in Hr. congruence.
  - intros f p t Hrun.
    apply optimalCopulaFamily_inv in Hrun as (emp & st & E & Hsel).
    destruct (family_loop_excludes cvolume entropy K emp HK (kendalls_tau X)
                family_search Htau) as (st' & E' & Ht & Hnd & Hk & Hex & _).
    rewrite E in E'. injection E' as <-.
    destruct (selected_spec param invcopulastat iteritems st)
      as [[ER _] | (f' & d & l1 & l2 & EO & Hsplit & _ & _)];
      rewrite Hsel in *; [discriminate|].
    injection EO as -> _ ->.
    assert (Hin : In (f', Finite d) (distances st)).
    { apply (Permutation_in _ (Hiter _ Hk)). rewrite Hsplit.
      apply in_or_app. right. now left. }
    assert (Hf : In f' family_search).
    { apply key_order_In. rewrite <- Hk. unfold keys.
      apply in_map_iff. exists (f', Finite d). split; [reflexivity|exact Hin]. }
    split; [exact Hf|]. split; [|exact Ht].
    destruct (is_restricted f') eqn:Er; [|reflexivity].
    specialize (Hex f' Hf Er).
    rewrite (dict_get_In _ _ _ Hnd Hin) in Hex. discriminate Hex.
Qed.

Lemma restricted_family_excluded_witness :
  (1 <= 4)%Z /\
  (fun _ : ndarray => - (1 # 5)) X_2x2 < neg_0_05 /\
  (forall d, keys d = key_order default_families ->
             Permutation (CPython27.iteritems d) d) /\
  ((forall emp, exists st,
      family_loop cvolume_product entropy_squares 4 emp
                  ((fun _ : ndarray => - (1 # 5)) X_2x2) default_families = Ok st /\
      tau_hat st = (fun _ : ndarray => - (1 # 5)) X_2x2 /\
      forall f, In f default_families -> is_restricted f = true ->
        dict_get (distances st) f = Some Inf /\
        ~ In f (map fst (built st))) /\
   (forall f p t,
      optimalCopulaFamily cvolume_product (fun _ => U_inner)
                          (fun _ => - (1 # 5)) entropy_squares
                          invcopulastat_value CPython27.iteritems
                          X_2x2 4 default_families = Ok (f, p, t) ->
      In f default_families /\ is_restricted f = false /\
      t = (fun _ : ndarray => - (1 # 5)) X_2x2)) /\
  optimalCopulaFamily cvolume_product (fun _ => U_inner)
                      (fun _ => - (1 # 5)) entropy_squares
                      invcopulastat_value CPython27.iteritems
                      X_2x2 4 default_families =
  Ok ("Gaussian"%string, - (1 # 5), - (1 # 5)).
Proof.
  split; [lia|]. split; [reflexivity|].
  split; [exact cpython27_default_families_perm|].
  split; [|vm_compute; reflexivity].
  apply (restricted_family_excluded cvolume_product (fun _ => U_inner)
           (fun _ => - (1 # 5)) entropy_squares Q invcopulastat_value
           CPython27.iteritems X_2x2 4 default_families);
    [lia | reflexivity | exact cpython27_default_families_perm].
Defined.

Lemma clamp_overwrites_tau_hat_witness :
  (1 <= 4)%Z /\
  neg_0_05 <= (fun _ : ndarray => - (3 # 100)) X_2x2 /\
  (fun _ : ndarray => - (3 # 100)) X_2x2 < 0 /\
  Forall (fun g => is_restricted g = false) ["Gaussian"%string] /\
  is_restricted "Clayton" = true /\
  ((forall emp, exists st,
      family_loop cvolume_product entropy_squares 4 emp
                  ((fun _ : ndarray => - (3 # 100)) X_2x2)
                  (["Gaussian"%string] ++ "Clayton"%string
                     :: ["Gumbel"%string; "Frank"%string]) = Ok st /\
      tau_hat st = 0 /\
      built st =
        map (fun g => (g, (fun _ : ndarray => - (3 # 100)) X_2x2))
            ["Gaussian"%string] ++
        ("Clayton"%string, 0)
          :: map (fun g => (g, 0)) ["Gumbel"%string; "Frank"%string]) /\
   (forall fam p t,
      optimalCopulaFamily cvolume_product (fun _ => U_inner)
                          (fun _ => - (3 # 100)) entropy_squares
                          invcopulastat_value CPython27.iteritems X_2x2 4
                          (["Gaussian"%string] ++ "Clayton"%string
                             :: ["Gumbel"%string; "Frank"%string]) =
      Ok (fam, p, t) ->
      t = 0 /\ p = invcopulastat_value fam (kendall 0))) /\
  optimalCopulaFamily cvolume_product (fun _ => U_inner)
                      (fun _ => - (3 # 100)) entropy_squares
                      invcopulastat_value CPython27.iteritems X_2x2 4
                      default_families =
  Ok ("Clayton"%string, 0, 0).
Proof.
  split; [lia|]. split; [discriminate|]. split; [reflexivity|].
  split; [repeat constructor|]. split; [reflexivity|].
  split; [|vm_compute; reflexivity].
  apply (clamp_overwrites_tau_hat cvolume_product (fun _ => U_inner)
           (fun _ => - (3 # 100)) entropy_squares Q invcopulastat_value
           CPython27.iteritems X_2x2 4 ["Gaussian"%string] "Clayton"
           ["Gumbel"%string; "Frank"%string]);
    [lia | discriminate | reflexivity | repeat constructor | reflexivity].
Defined.

(* ================================================================= *)
(** ** No family to return *)

(** C4, as the code has it: [optimalFamily] is assigned only when a
    divergence is below [+inf].  With no candidate, and when every
    recorded divergence is [+inf] (so when every candidate is excluded,
    as Clayton and Gumbel are for [tau_hat] below the double [-0.05]),
    the variable is unbound at the inversion of the parameter and the
    same [UnboundLocalError] is raised; no family is returned, and the
    two situations are not told apart. *)
Theorem nothing_selected_is_unbound
        (cvolume : string -> point -> point -> point -> point -> dependency -> Q)
        (pit : ndarray -> ndarray) (kendalls_tau : ndarray -> Q)
        (entropy : list Q -> list Q -> distance)
        (param : Type) (invcopulastat : string -> dependency -> param)
        (iteritems : dict -> list (string * distance))
        (X : ndarray) (K : Z) (family_search : list string) :
  (1 <= K)%Z -> (2 <= shape1 X)%nat ->
  wf_array (pit X) -> shape0 (pit X) = shape0 X -> shape1 (pit X) = shape1 X ->
  (forall d, keys d = key_order family_search -> Permutation (iteritems d) d) ->
  exists emp st,
    family_loop cvolume entropy K emp (kendalls_tau X) family_search = Ok st /\
    (optimalCopulaFamily cvolume pit kendalls_tau entropy invcopulastat
                         iteritems X K family_search = Raise UnboundLocalError
     <-> forall kv, In kv (distances st) -> snd kv = Inf) /\
    (family_search = [] ->
     optimalCopulaFamily cvolume pit kendalls_tau entropy invcopulastat
                         iteritems X K family_search = Raise UnboundLocalError) /\
    (kendalls_tau X < neg_0_05 ->
     Forall (fun f => is_restricted f = true) family_search ->
     optimalCopulaFamily cvolume pit kendalls_tau entropy invcopulastat
                         iteritems X K family_search = Raise UnboundLocalError).
Proof.
  intros HK HN HU H0 H1 Hiter.
  destruct (optimalCopulaFamily_run cvolume pit kendalls_tau entropy param
              invcopulastat iteritems X K family_search HK HN HU H0 H1)
    as (emp & st & E & Hnd & Hk & Hrun).
  assert (Hiff :
    optimalCopulaFamily cvolume pit kendalls_tau entropy invcopulastat
                        iteritems X K family_search = Raise UnboundLocalError
    <-> forall kv, In kv (distances st) -> snd kv = Inf).
  { rewrite Hrun.
    destruct (selected_spec param invcopulastat iteritems st)
      as [[ER Hall] | (f & d & l1 & l2 & EO & Hsplit & _ & _)].
    - split; [|intros _; exact ER]. intros _ kv Hkv. apply Hall.
      apply (Permutation_in _ (Permutation_sym (Hiter _ Hk))). exact Hkv.
    - rewrite EO. split; [discriminate|]. intro Hall. exfalso.
      assert (Hin : In (f, Finite d) (distances st)).
      { apply (Permutation_in _ (Hiter _ Hk)). rewrite Hsplit.
        apply in_or_app. right. now left. }
      apply Hall in Hin. discriminate Hin. }
  exists emp, st. split; [exact E|]. split; [exact Hiff|]. split.
  - intros ->. apply Hiff. unfold keys in Hk.
    destruct (distances st); [intros kv []|discriminate Hk].
  - intros Htau Hall. apply Hiff. intros [k v] Hkv.
    destruct (family_loop_excludes cvolume entropy K emp HK (kendalls_tau X)
                family_search Htau) as (st' & E' & _ & _ & _ & Hex & _).
    rewrite E in E'. injection E' as <-.
    assert (Hf : In k family_search).
    { apply key_order_In. rewrite <- Hk. unfold keys.
      apply in_map_iff. exists (k, v). split; [reflexivity|exact Hkv]. }
    rewrite Forall_forall in Hall.
    specialize (Hex k Hf (Hall k Hf)).
    rewrite (dict_get_In _ _ _ Hnd Hkv) in Hex. injection Hex as ->. reflexivity.
Qed.

Lemma nothing_selected_is_unbound_witness :
  (1 <= 4)%Z /\ (2 <= shape1 X_2x2)%nat /\
  wf_array ((fun _ => U_inner) X_2x2) /\
  shape0 ((fun _ => U_inner) X_2x2) = shape0 X_2x2 /\
  shape1 ((fun _ => U_inner) X_2x2) = shape1 X_2x2 /\
  (forall d, keys d = key_order ["Clayton"; "Gumbel"]%string ->
             Permutation (CPython27.iteritems d) d) /\
  exists emp st,
    family_loop cvolume_product entropy_squares 4 emp
                ((fun _ : ndarray => - (1 # 5)) X_2x2)
                ["Clayton"; "Gumbel"]%string = Ok st /\
    (optimalCopulaFamily cvolume_product (fun _ => U_inner)
                         (fun _ => - (1 # 5)) entropy_squares
                         invcopulastat_value CPython27.iteritems X_2x2 4
                         ["Clayton"; "Gumbel"]%string = Raise UnboundLocalError
     <-> forall kv, In kv (distances st) -> snd kv = Inf) /\
    (["Clayton"; "Gumbel"]%string = [] ->
     optimalCopulaFamily cvolume_product (fun _ => U_inner)
                         (fun _ => - (1 # 5)) entropy_squares
                         invcopulastat_value CPython27.iteritems X_2x2 4
                         ["Clayton"; "Gumbel"]%string = Raise UnboundLocalError) /\
    ((fun _ : ndarray => - (1 # 5)) X_2x2 < neg_0_05 ->
     Forall (fun f => is_restricted f = true) ["Clayton"; "Gumbel"]%string ->
     optimalCopulaFamily cvolume_product (fun _ => U_inner)
                         (fun _ => - (1 # 5)) entropy_squares
                         invcopulastat_value CPython27.iteritems X_2x2 4
                         ["Clayton"; "Gumbel"]%string = Raise UnboundLocalError).
Proof.
  split; [lia|]. split; [simpl; lia|]. split; [exact wf_U_inner|].
  split; [reflexivity|]. split; [reflexivity|].
  split; [exact cpython27_two_restricted_perm|].
  apply (nothing_selected_is_unbound cvolume_product (fun _ => U_inner)
           (fun _ => - (1 # 5)) entropy_squares Q invcopulastat_value
           CPython27.iteritems X_2x2 4 ["Clayton"; "Gumbel"]%string);
    [lia | simpl; lia | exact wf_U_inner | reflexivity | reflexivity
     | exact cpython27_two_restricted_perm].
Defined.

(** C4 as stated fails: with [tau_hat = -0.2] the candidates Clayton and
    Gumbel are both excluded, and the outcome is the very exception of an
    empty list of candidates, an unbound variable: the caller cannot
    tell "no admissible family" from the error of configuration. *)
Lemma unbound_for_empty_and_for_excluded :
  optimalCopulaFamily cvolume_product (fun _ => U_inner)
                      (fun _ => - (1 # 5)) entropy_squares
                      invcopulastat_value CPython27.iteritems X_2x2 4
                      [] = Raise UnboundLocalError /\
  optimalCopulaFamily cvolume_product (fun _ => U_inner)
                      (fun _ => - (1 # 5)) entropy_squares
                      invcopulastat_value CPython27.iteritems X_2x2 4
                      ["Clayton"; "Gumbel"]%string = Raise UnboundLocalError /\
  optimalCopulaFamily cvolume_product (fun _ => U_inner)
                      (fun _ => - (1 # 5)) entropy_squares
                      invcopulastat_value CPython27.iteritems X_2x2 4
                      ["Clayton"; "Gumbel"]%string =
  optimalCopulaFamily cvolume_product (fun _ => U_inner)
                      (fun _ => - (1 # 5)) entropy_squares
                      invcopulastat_value CPython27.iteritems X_2x2 4
                      [].
Proof. repeat split; vm_compute; reflexivity. Qed.

(* ================================================================= *)
(** ** The family of least divergence *)




(* ================================================================= *)
(** * Further properties of the module *)

(** ** The theoretical signature *)

(** [copulamnsig] returns, for [K >= 1], [K*K] volumes in the order of
    the grid: the entry [i*K + j] is the volume of the cell between the
    break points [i], [i+1] (horizontal) and [j], [j+1] (vertical).  It
    never checks [K]: [K = 0] and [K = -1] give the empty list, and a
    smaller [K] the [ValueError] of [np.linspace]. *)
Theorem copulamnsig_grid_order
        (cvolume : string -> point -> point -> point -> point -> dependency -> Q)
        (family : string) (K : Z) (args : dependency) :
  ((1 <= K)%Z ->
   exists u mnsig,
     Np.linspace (0 + Np.eps) (1 - Np.eps) (K + 1) = Ok u /\
     copulamnsig cvolume family K args = Ok mnsig /\
     List.length mnsig = Z.to_nat (K * K) /\
     forall i j, (i < Z.to_nat K)%nat -> (j < Z.to_nat K)%nat ->
       nth_error mnsig (i * Z.to_nat K + j) =
       Some (cvolume family
                     (nth i u 0, nth j u 0) (nth i u 0, nth (j + 1) u 0)
                     (nth (i + 1) u 0, nth j u 0)
                     (nth (i + 1) u 0, nth (j + 1) u 0) args)) /\
  ((-1 <= K < 1)%Z -> copulamnsig cvolume family K args = Ok []) /\
  ((K < -1)%Z -> copulamnsig cvolume family K args = Raise ValueError).
Proof.
  split; [|split].
  - intro HK. destruct (makeCoordsList_ok K HK) as (u & Hu & E).
    replace (Z.of_nat (Z.to_nat K) + 1)%Z with (K + 1)%Z in Hu by lia.
    exists u. eexists. split; [exact Hu|].
    unfold copulamnsig. rewrite E. simpl. split; [reflexivity|].
    split; [rewrite length_map, nested_length; lia|].
    intros i j Hi Hj. rewrite nth_error_map.
    rewrite (nested_nth_error _ (make_cell u u) _ _ 0 i j Hi Hj). reflexivity.
  - intro HK. unfold copulamnsig. now rewrite makeCoordsList_small.
  - intro HK. unfold copulamnsig, _makeCoordsList.
    rewrite linspace_negative by lia. reflexivity.
Qed.

Lemma copulamnsig_grid_order_witness :
  ((1 <= 2)%Z /\
   exists u mnsig,
     Np.linspace (0 + Np.eps) (1 - Np.eps) (2 + 1) = Ok u /\
     copulamnsig cvolume_product "Frank" 2 (kendall (1 # 2)) = Ok mnsig /\
     List.length mnsig = Z.to_nat (2 * 2) /\
     forall i j, (i < Z.to_nat 2)%nat -> (j < Z.to_nat 2)%nat ->
       nth_error mnsig (i * Z.to_nat 2 + j) =
       Some (cvolume_product "Frank"
                     (nth i u 0, nth j u 0) (nth i u 0, nth (j + 1) u 0)
                     (nth (i + 1) u 0, nth j u 0)
                     (nth (i + 1) u 0, nth (j + 1) u 0) (kendall (1 # 2)))) /\
  ((-1 <= 0 < 1)%Z /\
   copulamnsig cvolume_product "Frank" 0 (kendall (1 # 2)) = Ok []) /\
  ((-3 < -1)%Z /\
   copulamnsig cvolume_product "Frank" (-3) (kendall (1 # 2)) = Raise ValueError).
Proof.
  split; [|split].
  - split; [lia|].
    apply (proj1 (copulamnsig_grid_order cvolume_product "Frank" 2 (kendall (1 # 2)))).
    lia.
  - split; [lia|].
    apply (proj1 (proj2 (copulamnsig_grid_order cvolume_product "Frank" 0
                           (kendall (1 # 2))))).
    lia.
  - split; [lia|].
    apply (proj2 (proj2 (copulamnsig_grid_order cvolume_product "Frank" (-3)
                           (kendall (1 # 2))))).
    lia.
Defined.

(** ** Sums over the grid *)

Lemma sum_app (a b : list Q) : Np.sum (a ++ b) == Np.sum a + Np.sum b.
Proof.
  induction a as [|x a IH]; simpl; [ring|]. rewrite IH. ring.
Qed.

Lemma sum_map_ext (A : Type) (f g : A -> Q) (l : list A) :
  (forall x, In x l -> f x == g x) ->
  Np.sum (map f l) == Np.sum (map g l).
Proof.
  induction l as [|x l IH]; intro H; simpl; [reflexivity|].
  rewrite (H x) by (now left). rewrite IH; [reflexivity|].
  intros y Hy. apply H. now right.
Qed.

Lemma sum_flat_map (A B : Type) (f : B -> Q) (g : A -> list B) (l : list A) :
  Np.sum (map f (flat_map g l)) == Np.sum (map (fun a => Np.sum (map f (g a))) l).
Proof.
  induction l as [|a l IH]; simpl; [reflexivity|].
  rewrite map_app, sum_app, IH. reflexivity.
Qed.

(** A sum of successive differences. *)
Lemma sum_telescope (F : nat -> Q) (s n : nat) :
  Np.sum (map (fun j => F (j + 1)%nat - F j) (seq s n)) == F (s + n)%nat - F s.
Proof.
  revert s; induction n as [|n IH]; intro s; simpl.
  - rewrite Nat.add_0_r. ring.
  - rewrite IH. replace (S s + n)%nat with (s + S n)%nat by lia.
    replace (s + 1)%nat with (S s) by lia. ring.
Qed.

(** When the volume of a rectangle is the inclusion-exclusion of a
    function [C] at its four corners, the entries of the signature sum to
    the volume of the whole grid, from [eps] to [1 - eps] on both axes:
    the sum that the sanity check of the script compares with 1. *)
Theorem copulamnsig_total_mass
        (cvolume : string -> point -> point -> point -> point -> dependency -> Q)
        (C : point -> Q) (family : string) (K : Z) (args : dependency) :
  (1 <= K)%Z ->
  (forall p q, fst p == fst q -> snd p == snd q -> C p == C q) ->
  (forall u1 u2 v1 v2,
     cvolume family (u1, v1) (u1, v2) (u2, v1) (u2, v2) args ==
     C (u2, v2) - C (u1, v2) - C (u2, v1) + C (u1, v1)) ->
  exists mnsig,
    copulamnsig cvolume family K args = Ok mnsig /\
    Np.sum mnsig ==
      C (1 - Np.eps, 1 - Np.eps) - C (Np.eps, 1 - Np.eps)
      - C (1 - Np.eps, Np.eps) + C (Np.eps, Np.eps).
Proof.
  intros HK HC Hvol.
  destruct (makeCoordsList_ok K HK) as (u & Hu & E).
  assert (Hn : (1 <= Z.to_nat K)%nat) by lia.
  set (n := Z.to_nat K) in *.
  eexists. unfold copulamnsig. rewrite E. simpl. split; [reflexivity|].
  set (b := fun i => nth i u 0).
  rewrite sum_flat_map.
  rewrite (sum_map_ext _ _
             (fun i => (C (b (i + 1)%nat, b n) - C (b (i + 1)%nat, b 0%nat))
                       - (C (b i, b n) - C (b i, b 0%nat)))).
  - rewrite (sum_telescope (fun i => C (b i, b n) - C (b i, b 0%nat)) 0 n).
    simpl (0 + n)%nat.
    assert (H0 : b 0%nat == Np.eps) by (apply (first_break n u Hn Hu)).
    assert (H1 : b n == 1 - Np.eps) by (apply (last_break n u Hn Hu)).
    rewrite (HC (b n, b n) (1 - Np.eps, 1 - Np.eps)) by assumption.
    rewrite (HC (b n, b 0%nat) (1 - Np.eps, Np.eps)) by assumption.
    rewrite (HC (b 0%nat, b n) (Np.eps, 1 - Np.eps)) by assumption.
    rewrite (HC (b 0%nat, b 0%nat) (Np.eps, Np.eps)) by assumption.
    ring.
  - intros i _. rewrite map_map.
    rewrite (sum_map_ext _ _
               (fun j => (C (b (i + 1)%nat, b (j + 1)%nat) - C (b i, b (j + 1)%nat))
                         - (C (b (i + 1)%nat, b j) - C (b i, b j)))).
    + rewrite (sum_telescope (fun j => C (b (i + 1)%nat, b j) - C (b i, b j)) 0 n).
      simpl (0 + n)%nat. ring.
    + intros j _. unfold make_cell. simpl. rewrite Hvol. unfold b. ring.
Qed.

Lemma copulamnsig_total_mass_witness :
  (1 <= 4)%Z /\
  (forall p q : point, fst p == fst q -> snd p == snd q ->
     (fun p : point => fst p * snd p) p == (fun p : point => fst p * snd p) q) /\
  (forall u1 u2 v1 v2,
     cvolume_product "Gumbel" (u1, v1) (u1, v2) (u2, v1) (u2, v2)
                     (kendall (4 # 10)) ==
     (fun p : point => fst p * snd p) (u2, v2)
     - (fun p : point => fst p * snd p) (u1, v2)
     - (fun p : point => fst p * snd p) (u2, v1)
     + (fun p : point => fst p * snd p) (u1, v1)) /\
  exists mnsig,
    copulamnsig cvolume_product "Gumbel" 4 (kendall (4 # 10)) = Ok mnsig /\
    Np.sum mnsig ==
      (fun p : point => fst p * snd p) (1 - Np.eps, 1 - Np.eps)
      - (fun p : point => fst p * snd p) (Np.eps, 1 - Np.eps)
      - (fun p : point => fst p * snd p) (1 - Np.eps, Np.eps)
      + (fun p : point => fst p * snd p) (Np.eps, Np.eps).
Proof.
  assert (HC : forall p q : point, fst p == fst q -> snd p == snd q ->
     (fun p : point => fst p * snd p) p == (fun p : point => fst p * snd p) q).
  { intros p q H1 H2. simpl. now rewrite H1, H2. }
  assert (HV : forall u1 u2 v1 v2,
     cvolume_product "Gumbel" (u1, v1) (u1, v2) (u2, v1) (u2, v2)
                     (kendall (4 # 10)) ==
     (fun p : point => fst p * snd p) (u2, v2)
     - (fun p : point => fst p * snd p) (u1, v2)
     - (fun p : point => fst p * snd p) (u2, v1)
     + (fun p : point => fst p * snd p) (u1, v1)).
  { intros. unfold cvolume_product. simpl. ring. }
  split; [lia|]. split; [exact HC|]. split; [exact HV|].
  apply (copulamnsig_total_mass cvolume_product (fun p : point => fst p * snd p)
           "Gumbel" 4 (kendall (4 # 10))); [lia | exact HC | exact HV].
Defined.

(** ** The cells do not overlap *)

Section Disjoint.

Variables (n : nat) (u : list Q).
Hypothesis Hn : (1 <= n)%nat.
Hypothesis Hu : Np.linspace (0 + Np.eps) (1 - Np.eps) (Z.of_nat n + 1) = Ok u.

Let cells := flat_map (fun ii => map (make_cell u u ii) (seq 0 n)) (seq 0 n).






End Disjoint.




(** ** The records of the pairs *)

From Stdlib Require Import Sorted.

Lemma StronglySorted_app (A : Type) (R : A -> A -> Prop) (l1 l2 : list A) :
  StronglySorted R l1 -> StronglySorted R l2 ->
  (forall x y, In x l1 -> In y l2 -> R x y) ->
  StronglySorted R (l1 ++ l2).
Proof.
  intros H1 H2 H12. induction l1 as [|a l1 IH]; simpl; [exact H2|].
  apply StronglySorted_inv in H1 as [H1 Ha].
  constructor.
  - apply IH; [exact H1|]. intros x y Hx Hy. apply H12; [now right|exact Hy].
  - apply Forall_app. split; [exact Ha|].
    apply Forall_forall. intros y Hy. apply H12; [now left|exact Hy].
Qed.

Section Triangle.

Variables (A : Type) (g : nat -> nat -> A) (N : nat).

Let row (d1 : nat) : list A := map (g d1) (seq (d1 + 1) (N - (d1 + 1))).

Lemma triangle_length (k s : nat) :
  (s + k = N - 1)%nat ->
  (2 * List.length (flat_map row (seq s k)) = k * (k + 1))%nat.
Proof.
  revert s; induction k as [|k IH]; intros s H; [reflexivity|].
  cbn [seq flat_map]. rewrite length_app. unfold row at 1.
  rewrite length_map, length_seq.
  specialize (IH (S s) ltac:(lia)).
  set (L := List.length (flat_map row (seq (S s) k))) in *.
  assert (E : (N - (s + 1) = S k)%nat) by lia. rewrite E. nia.
Qed.

Lemma triangle_In (k s d1 d2 : nat) :
  (s <= d1 < s + k)%nat -> (d1 < d2 < N)%nat ->
  In (g d1 d2) (flat_map row (seq s k)).
Proof.
  intros H1 H2. apply in_flat_map. exists d1. split; [apply in_seq; lia|].
  unfold row. apply in_map, in_seq. lia.
Qed.

Lemma triangle_sorted (R : A -> A -> Prop) (k s : nat) :
  (forall d1 d2 d1' d2',
     (d1 < d2)%nat -> (d1' < d2')%nat ->
     (d1 < d1' \/ (d1 = d1' /\ d2 < d2'))%nat -> R (g d1 d2) (g d1' d2')) ->
  StronglySorted R (flat_map row (seq s k)).
Proof.
  intro HR. revert s; induction k as [|k IH]; intro s; simpl; [constructor|].
  apply StronglySorted_app; [|apply IH|].
  - unfold row. generalize (N - (s + 1))%nat as m.
    assert (G : forall m a, (s < a)%nat -> StronglySorted R (map (g s) (seq a m))).
    { induction m as [|m IHm]; intros a Ha; simpl; constructor.
      - apply IHm. lia.
      - apply Forall_forall. intros y Hy. apply in_map_iff in Hy as (b & <- & Hb).
        apply in_seq in Hb. apply HR; lia. }
    intro m. apply G. lia.
  - intros x y Hx Hy. unfold row in Hx.
    apply in_map_iff in Hx as (d2 & <- & Hd2). apply in_seq in Hd2.
    apply in_flat_map in Hy as (d1' & Hd1' & Hy). apply in_seq in Hd1'.
    unfold row in Hy. apply in_map_iff in Hy as (d2' & <- & Hd2').
    apply in_seq in Hd2'. apply HR; lia.
Qed.

End Triangle.

(** The list of the records, with the bounds of the two loops as
    natural numbers. *)
Lemma empirical_records_triangle
      (pit : ndarray -> ndarray) (X : ndarray) (K : Z) (coords_list : list coords) :
  wf_array (pit X) -> shape0 (pit X) = shape0 X -> shape1 (pit X) = shape1 X ->
  _makeCoordsList K = Ok coords_list ->
  List.length coords_list = Z.to_nat (K * K) ->
  empirical_copulamnsig pit X K =
  Ok (flat_map
        (fun d1 => map (pair_record coords_list (pit X) K d1)
                       (seq (d1 + 1) (shape1 X - (d1 + 1))))
        (seq 0 (shape1 X - 1))) /\
  (2 * List.length
         (flat_map
            (fun d1 => map (pair_record coords_list (pit X) K d1)
                           (seq (d1 + 1) (shape1 X - (d1 + 1))))
            (seq 0 (shape1 X - 1))) = shape1 X * (shape1 X - 1))%nat.
Proof.
  intros HU H0 H1 Hcells Hlen.
  pose proof (empirical_copulamnsig_spec pit X K coords_list HU H0 H1 Hcells Hlen)
    as E.
  unfold range0, range in E.
  set (N := shape1 X) in *.
  set (g := pair_record coords_list (pit X) K) in *.
  assert (Erec : forall l,
    flat_map (fun d1 => map (g d1) (seq (d1 + 1) (Z.to_nat (Z.of_nat N) - (d1 + 1)))) l =
    flat_map (fun d1 => map (g d1) (seq (d1 + 1) (N - (d1 + 1)))) l).
  { intro l. now rewrite Nat2Z.id. }
  rewrite Erec in E.
  replace (Z.to_nat (Z.of_nat N - 1)) with (N - 1)%nat in E by lia.
  split; [exact E|].
  rewrite (triangle_length _ g N (N - 1) 0) by lia.
  destruct N; simpl; lia.
Qed.

(** [empirical_copulamnsig] returns one record for each pair of columns
    [dim1 < dim2], so [N (N-1) / 2] records; [rv1] and [rv2] number the
    two columns from 1, and the records come in the order of the pairs:
    by [rv1], then by [rv2]. *)
Theorem empirical_records_pairs
        (pit : ndarray -> ndarray) (X : ndarray) (K : Z) :
  (1 <= K)%Z ->
  wf_array (pit X) -> shape0 (pit X) = shape0 X -> shape1 (pit X) = shape1 X ->
  exists records,
    empirical_copulamnsig pit X K = Ok records /\
    (2 * List.length records = shape1 X * (shape1 X - 1))%nat /\
    (forall r, In r records ->
       (1 <= rv1 r < rv2 r)%Z /\ (rv2 r <= Z.of_nat (shape1 X))%Z) /\
    (forall a b, (1 <= a < b)%Z -> (b <= Z.of_nat (shape1 X))%Z ->
       exists r, In r records /\ rv1 r = a /\ rv2 r = b) /\
    StronglySorted pair_before (map rv_pair records).
Proof.
  intros HK HU H0 H1.
  destruct (makeCoordsList_ok K HK) as (u & Hu & Hcells).
  set (coords_list := flat_map (fun ii => map (make_cell u u ii) (seq 0 (Z.to_nat K)))
                               (seq 0 (Z.to_nat K))) in *.
  assert (Hlen : List.length coords_list = Z.to_nat (K * K))
    by (unfold coords_list; rewrite nested_length; lia).
  destruct (empirical_records_triangle pit X K coords_list HU H0 H1 Hcells Hlen)
    as [E Hcount].
  set (N := shape1 X) in *.
  set (g := pair_record coords_list (pit X) K) in *.
  eexists. split; [exact E|].
  split; [exact Hcount|].
  split.
  { intros r Hr. apply in_flat_map in Hr as (d1 & Hd1 & Hr).
    apply in_map_iff in Hr as (d2 & <- & Hd2). apply in_seq in Hd1, Hd2.
    unfold g, pair_record. simpl. lia. }
  split.
  { intros a b Hab Hb.
    exists (g (Z.to_nat (a - 1)) (Z.to_nat (b - 1))). split; [|split].
    - apply triangle_In; lia.
    - unfold g, pair_record. simpl. lia.
    - unfold g, pair_record. simpl. lia. }
  rewrite flat_map_concat_map, concat_map, map_map, <- flat_map_concat_map.
  rewrite (flat_map_ext _ (fun d1 => map (fun d2 => rv_pair (g d1 d2))
                                         (seq (d1 + 1) (N - (d1 + 1)))))
    by (intro d1; now rewrite map_map).
  apply (triangle_sorted _ (fun d1 d2 => rv_pair (g d1 d2)) N).
  intros d1 d2 d1' d2' _ _ H. unfold pair_before, rv_pair, g, pair_record. simpl.
  lia.
Qed.

Lemma empirical_records_pairs_witness :
  (1 <= 2)%Z /\
  wf_array ((fun _ => U_inner) X_2x2) /\
  shape0 ((fun _ => U_inner) X_2x2) = shape0 X_2x2 /\
  shape1 ((fun _ => U_inner) X_2x2) = shape1 X_2x2 /\
  exists records,
    empirical_copulamnsig (fun _ => U_inner) X_2x2 2 = Ok records /\
    (2 * List.length records = shape1 X_2x2 * (shape1 X_2x2 - 1))%nat /\
    (forall r, In r records ->
       (1 <= rv1 r < rv2 r)%Z /\ (rv2 r <= Z.of_nat (shape1 X_2x2))%Z) /\
    (forall a b, (1 <= a < b)%Z -> (b <= Z.of_nat (shape1 X_2x2))%Z ->
       exists r, In r records /\ rv1 r = a /\ rv2 r = b) /\
    StronglySorted pair_before (map rv_pair records).
Proof.
  split; [lia|]. split; [exact wf_U_inner|].
  split; [reflexivity|]. split; [reflexivity|].
  apply (empirical_records_pairs (fun _ => U_inner) X_2x2 2);
    [lia | exact wf_U_inner | reflexivity | reflexivity].
Defined.

(** ** The estimator at the edges of its inputs *)

Lemma tally_no_cells (coords_list : list coords) (M : Z)
      (ss : list (Q * Q)) (vec : list Q) :
  fold_left (tally_step coords_list M 0) ss vec = vec.
Proof.
  revert vec; induction ss as [|s ss IH]; intro vec; simpl; [reflexivity|].
  apply IH.
Qed.

(** A sample matrix without rows is accepted: the loop over the rows is
    empty, [1.0/M] is never computed, and every per-pair vector is the
    zero vector of length [K*K]. *)
Theorem empirical_no_rows
        (pit : ndarray -> ndarray) (X : ndarray) (K : Z) :
  (1 <= K)%Z -> shape0 X = 0%nat ->
  wf_array (pit X) -> shape0 (pit X) = shape0 X -> shape1 (pit X) = shape1 X ->
  exists records,
    empirical_copulamnsig pit X K = Ok records /\
    (2 * List.length records = shape1 X * (shape1 X - 1))%nat /\
    forall r, In r records -> esig r = repeat 0 (Z.to_nat (K * K)).
Proof.
  intros HK HM HU H0 H1.
  destruct (makeCoordsList_ok K HK) as (u & Hu & Hcells).
  set (coords_list := flat_map _ _) in Hcells.
  assert (Hl : List.length coords_list = Z.to_nat (K * K))
    by (unfold coords_list; rewrite nested_length; lia).
  destruct (empirical_records_triangle pit X K coords_list HU H0 H1 Hcells Hl)
    as [E Hcount].
  eexists. split; [exact E|]. split; [exact Hcount|].
  intros r Hr. apply in_flat_map in Hr as (d1 & _ & Hr).
  apply in_map_iff in Hr as (d2 & <- & _).
  unfold pair_record, samples. simpl.
  destruct HU as [Hrows _]. rewrite H0, HM in Hrows.
  apply length_zero_iff_nil in Hrows. rewrite Hrows. reflexivity.
Qed.

Lemma empirical_no_rows_witness :
  (1 <= 2)%Z /\ shape0 (mkArray 0 3 []) = 0%nat /\
  wf_array ((fun A : ndarray => A) (mkArray 0 3 [])) /\
  shape0 ((fun A : ndarray => A) (mkArray 0 3 [])) = shape0 (mkArray 0 3 []) /\
  shape1 ((fun A : ndarray => A) (mkArray 0 3 [])) = shape1 (mkArray 0 3 []) /\
  exists records,
    empirical_copulamnsig (fun A => A) (mkArray 0 3 []) 2 = Ok records /\
    (2 * List.length records =
     shape1 (mkArray 0 3 []) * (shape1 (mkArray 0 3 []) - 1))%nat /\
    forall r, In r records -> esig r = repeat 0 (Z.to_nat (2 * 2)).
Proof.
  assert (W : wf_array ((fun A : ndarray => A) (mkArray 0 3 [])))
    by (split; [reflexivity | constructor]).
  split; [lia|]. split; [reflexivity|]. split; [exact W|].
  split; [reflexivity|]. split; [reflexivity|].
  apply (empirical_no_rows (fun A => A) (mkArray 0 3 []) 2);
    [lia | reflexivity | exact W | reflexivity | reflexivity].
Defined.

(** The estimator does not check the resolution.  [K < -1] is refused by
    [np.linspace] ([ValueError]).  [K = -1] gives an empty grid but one
    cell to scan, [range(0, K*K)] being [range(0, 1)]: with at least one
    row and two columns [coords_list[0]] is an [IndexError].  [K = 0] is
    accepted: the records are returned with empty vectors. *)
Theorem empirical_resolution_below_one
        (pit : ndarray -> ndarray) (X : ndarray) (K : Z) :
  ((K < -1)%Z -> empirical_copulamnsig pit X K = Raise ValueError) /\
  (K = (-1)%Z -> (1 <= shape0 X)%nat -> (2 <= shape1 X)%nat ->
   (2 <= shape1 (pit X))%nat ->
   empirical_copulamnsig pit X K = Raise IndexError) /\
  (K = 0%Z ->
   wf_array (pit X) -> shape0 (pit X) = shape0 X -> shape1 (pit X) = shape1 X ->
   exists records,
     empirical_copulamnsig pit X K = Ok records /\
     (2 * List.length records = shape1 X * (shape1 X - 1))%nat /\
     forall r, In r records -> esig r = []).
Proof.
  split; [|split].
  - intro HK. unfold empirical_copulamnsig, _makeCoordsList.
    rewrite linspace_negative by lia. reflexivity.
  - intros -> HM HN HNU. unfold empirical_copulamnsig.
    change (_makeCoordsList (-1)) with (@Ok (list coords) []).
    cbn [Py.bind]. unfold range0.
    replace (Z.to_nat (Z.of_nat (shape1 X) - 1)) with (S (shape1 X - 2)) by lia.
    cbn [seq for_each]. unfold range.
    replace (Z.to_nat (Z.of_nat (shape1 X)) - (0 + 1))%nat
      with (S (shape1 X - 2)) by lia.
    cbn [seq for_each Nat.add].
    unfold pair_esig.
    rewrite (column_ok (pit X) 0) by lia.
    rewrite (column_ok (pit X) 1) by lia.
    cbn [Py.bind]. unfold range0.
    replace (Z.to_nat (Z.of_nat (shape0 X))) with (S (shape0 X - 1)) by lia.
    reflexivity.
  - intros -> HU H0 H1.
    assert (Hcells : _makeCoordsList 0 = Ok []) by reflexivity.
    destruct (empirical_records_triangle pit X 0 [] HU H0 H1 Hcells eq_refl)
      as [E Hcount].
    set (g := pair_record [] (pit X) 0) in *.
    eexists. split; [exact E|]. split; [exact Hcount|].
    intros r Hr. apply in_flat_map in Hr as (d1 & _ & Hr).
    apply in_map_iff in Hr as (d2 & <- & _).
    unfold g, pair_record. simpl. apply tally_no_cells.
Qed.

Lemma empirical_resolution_below_one_witness :
  ((-4 < -1)%Z /\
   empirical_copulamnsig (fun _ => U_inner) X_2x2 (-4) = Raise ValueError) /\
  ((-1 = -1)%Z /\ (1 <= shape0 X_2x2)%nat /\ (2 <= shape1 X_2x2)%nat /\
   (2 <= shape1 ((fun _ => U_inner) X_2x2))%nat /\
   empirical_copulamnsig (fun _ => U_inner) X_2x2 (-1) = Raise IndexError) /\
  ((0 = 0)%Z /\
   wf_array ((fun _ => U_inner) X_2x2) /\
   shape0 ((fun _ => U_inner) X_2x2) = shape0 X_2x2 /\
   shape1 ((fun _ => U_inner) X_2x2) = shape1 X_2x2 /\
   exists records,
     empirical_copulamnsig (fun _ => U_inner) X_2x2 0 = Ok records /\
     (2 * List.length records = shape1 X_2x2 * (shape1 X_2x2 - 1))%nat /\
     forall r, In r records -> esig r = []).
Proof.
  split; [|split].
  - split; [lia|].
    apply (proj1 (empirical_resolution_below_one (fun _ => U_inner) X_2x2 (-4))).
    lia.
  - split; [reflexivity|]. split; [simpl; lia|]. split; [simpl; lia|].
    split; [simpl; lia|].
    apply (proj1 (proj2 (empirical_resolution_below_one (fun _ => U_inner)
                           X_2x2 (-1))));
      [reflexivity | simpl; lia | simpl; lia | simpl; lia].
  - split; [reflexivity|]. split; [exact wf_U_inner|].
    split; [reflexivity|]. split; [reflexivity|].
    apply (proj2 (proj2 (empirical_resolution_below_one (fun _ => U_inner)
                           X_2x2 0)));
      [reflexivity | exact wf_U_inner | reflexivity | reflexivity].
Defined.

(* ================================================================= *)
(** ** The choice of the family: what a result requires *)

Lemma for_each_inv (A S : Type) (body : A -> S -> result S)
      (P : list A -> S -> Prop) (xs : list A) (s0 s1 : S) :
  P [] s0 ->
  (forall pre x s s', P pre s -> body x s = Ok s' -> P (pre ++ [x]) s') ->
  for_each xs body s0 = Ok s1 -> P xs s1.
Proof.
  intros H0 Hstep.
  assert (G : forall xs pre s, P pre s -> for_each xs body s = Ok s1 ->
                               P (pre ++ xs) s1).
  { clear xs. induction xs as [|x xs IH]; intros pre s Hs E; simpl in E.
    - injection E as <-. now rewrite app_nil_r.
    - destruct (body x s) as [s'|e] eqn:Eb; [|discriminate].
      replace (pre ++ x :: xs) with ((pre ++ [x]) ++ xs)
        by (now rewrite <- app_assoc).
      apply (IH (pre ++ [x]) s'); [|exact E]. eapply Hstep; eassumption. }
  apply (G xs [] s0 H0).
Qed.

Lemma dict_set_In (d : dict) (k : string) (v : distance) (kv : string * distance) :
  In kv (dict_set d k v) -> kv = (k, v) \/ In kv d.
Proof.
  induction d as [|[k0 v0] d IH]; simpl.
  - intros [<-|[]]. now left.
  - destruct (String.eqb_spec k0 k) as [->|Hne]; simpl.
    + intros [<-|H]; [now left | right; now right].
    + intros [<-|H]; [right; now left|].
      destruct (IH H) as [->|H']; [now left | right; now right].
Qed.

Section BodyInversion.

Variable cvolume : string -> point -> point -> point -> point -> dependency -> Q.
Variable entropy : list Q -> list Q -> distance.
Variables (K : Z) (emp : list Q).

Lemma evaluate_inv (f : string) (tau : Q) (st st' : loop_state) :
  evaluate cvolume entropy K emp f tau st = Ok st' ->
  exists v t,
    copulamnsig cvolume f K (kendall tau) = Ok (v :: t) /\
    st' = mkState tau
            (dict_set (distances st) f (entropy (Np.spacing1 :: t) emp))
            (built st ++ [(f, tau)]).
Proof.
  unfold evaluate.
  destruct (copulamnsig cvolume f K (kendall tau)) as [[|v t]|e]; simpl;
    try discriminate.
  intros [= <-]. exists v, t. split; reflexivity.
Qed.

(** What the body has done when it ends without an exception. *)
Lemma family_body_inv (f : string) (st st' : loop_state) :
  family_body cvolume entropy K emp f st = Ok st' ->
  st' = mkState (tau_hat st) (dict_set (distances st) f Inf) (built st) \/
  exists tau v t,
    copulamnsig cvolume f K (kendall tau) = Ok (v :: t) /\
    st' = mkState tau
            (dict_set (distances st) f (entropy (Np.spacing1 :: t) emp))
            (built st ++ [(f, tau)]).
Proof.
  assert (Hev : forall tau,
            evaluate cvolume entropy K emp f tau st = Ok st' ->
            exists tau' v t,
              copulamnsig cvolume f K (kendall tau') = Ok (v :: t) /\
              st' = mkState tau'
                      (dict_set (distances st) f (entropy (Np.spacing1 :: t) emp))
                      (built st ++ [(f, tau')])).
  { intros tau H. apply evaluate_inv in H as (v & t & H1 & H2). eauto. }
  assert (Hres : restricted cvolume entropy K emp f st = Ok st' ->
            st' = mkState (tau_hat st) (dict_set (distances st) f Inf) (built st) \/
            exists tau v t,
              copulamnsig cvolume f K (kendall tau) = Ok (v :: t) /\
              st' = mkState tau
                      (dict_set (distances st) f (entropy (Np.spacing1 :: t) emp))
                      (built st ++ [(f, tau)])).
  { unfold restricted.
    destruct (Qlt_bool (tau_hat st) neg_0_05).
    - intros [= <-]. now left.
    - destruct (Qle_bool neg_0_05 (tau_hat st) && Qlt_bool (tau_hat st) 0);
        [|destruct (Qle_bool 1 (tau_hat st))]; intro H; right; eapply Hev; exact H. }
  unfold family_body.
  destruct (String.eqb (lower f) "clayton"); [exact Hres|].
  destruct (String.eqb (lower f) "gumbel"); [exact Hres|].
  intro H. right. eapply Hev; exact H.
Qed.

(** Whenever the loop ends, the keys of [distances] are the candidates
    and every recorded divergence is [+inf] or was computed from a
    signature that [copulamnsig] returned with [K*K >= 1] entries, its
    first entry replaced, against the empirical vector. *)
Lemma family_loop_inv (tau0 : Q) (fs : list string) (st : loop_state) :
  family_loop cvolume entropy K emp tau0 fs = Ok st ->
  NoDup (keys (distances st)) /\
  keys (distances st) = key_order fs /\
  forall kv, In kv (distances st) ->
    snd kv = Inf \/
    exists tau v t,
      copulamnsig cvolume (fst kv) K (kendall tau) = Ok (v :: t) /\
      snd kv = entropy (Np.spacing1 :: t) emp.
Proof.
  unfold family_loop.
  apply (for_each_inv _ _ (family_body cvolume entropy K emp)
           (fun pre s =>
              NoDup (keys (distances s)) /\
              keys (distances s) = key_order pre /\
              forall kv, In kv (distances s) ->
                snd kv = Inf \/
                exists tau v t,
                  copulamnsig cvolume (fst kv) K (kendall tau) = Ok (v :: t) /\
                  snd kv = entropy (Np.spacing1 :: t) emp)).
  - split; [constructor|]. split; [reflexivity|]. intros kv [].
  - intros pre f s s' (Hnd & Hk & Hall) Hb.
    apply family_body_inv in Hb as [-> | (tau & v & t & Hc & ->)]; simpl.
    + split; [now apply dict_set_NoDup|].
      split; [now rewrite dict_set_key_order, key_order_snoc, Hk|].
      intros kv Hkv. apply dict_set_In in Hkv as [->|Hkv]; [now left|now apply Hall].
    + split; [now apply dict_set_NoDup|].
      split; [now rewrite dict_set_key_order, key_order_snoc, Hk|].
      intros kv Hkv. apply dict_set_In in Hkv as [->|Hkv]; [|now apply Hall].
      right. exists tau, v, t. split; [exact Hc|reflexivity].
Qed.

End BodyInversion.

Lemma copulamnsig_below_one
      (cvolume : string -> point -> point -> point -> point -> dependency -> Q)
      (f : string) (K : Z) (args : dependency) (v : Q) (t : list Q) :
  (K < 1)%Z -> copulamnsig cvolume f K args <> Ok (v :: t).
Proof.
  intros HK H. unfold copulamnsig in H.
  destruct (Z_lt_le_dec K (-1)) as [L|G].
  - unfold _makeCoordsList in H. rewrite linspace_negative in H by lia.
    discriminate.
  - rewrite makeCoordsList_small in H by lia. discriminate.
Qed.

Lemma empirical_few_columns_cases (pit : ndarray -> ndarray) (X : ndarray) (K : Z) :
  (shape1 X < 2)%nat ->
  empirical_copulamnsig pit X K = Ok [] \/
  exists e, empirical_copulamnsig pit X K = Raise e.
Proof.
  intro HN. unfold empirical_copulamnsig.
  destruct (_makeCoordsList K) as [coords_list|e]; simpl; [left|right; eauto].
  unfold range0.
  replace (Z.to_nat (Z.of_nat (shape1 X) - 1)) with 0%nat by lia. reflexivity.
Qed.

(** [optimalCopulaFamily] returns a result only for a resolution
    [K >= 1] and a matrix of at least two columns; the family returned is
    one of the candidates, as the caller spelled it, and the parameter
    returned is the inversion, for that family, of the [tau_hat]
    returned. *)
Theorem optimalCopulaFamily_result_requires
        (cvolume : string -> point -> point -> point -> point -> dependency -> Q)
        (pit : ndarray -> ndarray) (kendalls_tau : ndarray -> Q)
        (entropy : list Q -> list Q -> distance)
        (param : Type) (invcopulastat : string -> dependency -> param)
        (iteritems : dict -> list (string * distance))
        (X : ndarray) (K : Z) (family_search : list string)
        (f : string) (p : param) (t : Q) :
  (forall d, keys d = key_order family_search -> Permutation (iteritems d) d) ->
  optimalCopulaFamily cvolume pit kendalls_tau entropy invcopulastat
                      iteritems X K family_search = Ok (f, p, t) ->
  (1 <= K)%Z /\ (2 <= shape1 X)%nat /\ In f family_search /\
  p = invcopulastat f (kendall t).
Proof.
  intros Hiter Hrun.
  assert (HN : (2 <= shape1 X)%nat).
  { destruct (le_lt_dec 2 (shape1 X)) as [G|L]; [exact G|]. exfalso.
    unfold optimalCopulaFamily in Hrun.
    destruct (empirical_few_columns_cases pit X K L) as [E|[e E]];
      rewrite E in Hrun; discriminate Hrun. }
  apply optimalCopulaFamily_inv in Hrun as (emp & st & E & Hsel).
  destruct (family_loop_inv cvolume entropy K emp _ _ _ E) as (Hnd & Hk & Hval).
  destruct (selected_spec param invcopulastat iteritems st)
    as [[ER _] | (f' & d & l1 & l2 & EO & Hsplit & _ & _)];
    rewrite Hsel in *; [discriminate|].
  injection EO as -> -> ->.
  assert (Hin : In (f', Finite d) (distances st)).
  { apply (Permutation_in _ (Hiter _ Hk)). rewrite Hsplit.
    apply in_or_app. right. now left. }
  split; [|split; [exact HN|split; [|reflexivity]]].
  - destruct (Z_lt_le_dec K 1) as [L|G]; [exfalso|exact G].
    destruct (Hval _ Hin) as [Hinf | (tau & v & t' & Hc & _)];
      [discriminate Hinf|].
    exact (copulamnsig_below_one cvolume _ K _ v t' L Hc).
  - apply key_order_In. rewrite <- Hk. unfold keys.
    apply in_map_iff. exists (f', Finite d). split; [reflexivity|exact Hin].
Qed.

Lemma cpython27_frank_perm (d : dict) :
  keys d = key_order ["Frank"%string] -> Permutation (CPython27.iteritems d) d.
Proof.
  intro H. unfold keys in H. vm_compute in H.
  destruct d as [|[k1 v1] [|? ?]]; try discriminate H.
  injection H as ->. apply Permutation_refl.
Qed.

Lemma optimalCopulaFamily_result_requires_witness :
  (forall d, keys d = key_order ["Frank"%string] ->
             Permutation (CPython27.iteritems d) d) /\
  optimalCopulaFamily cvolume_product (fun _ => U_inner) (fun _ => 3 # 10)
                      entropy_squares invcopulastat_value CPython27.iteritems
                      X_2x2 1 ["Frank"%string] =
  Ok ("Frank"%string, 3 # 10, 3 # 10) /\
  (1 <= 1)%Z /\ (2 <= shape1 X_2x2)%nat /\ In "Frank"%string ["Frank"%string] /\
  3 # 10 = invcopulastat_value "Frank" (kendall (3 # 10)).
Proof.
  assert (E : optimalCopulaFamily cvolume_product (fun _ => U_inner)
                (fun _ => 3 # 10) entropy_squares invcopulastat_value
                CPython27.iteritems X_2x2 1 ["Frank"%string] =
              Ok ("Frank"%string, 3 # 10, 3 # 10))
    by (vm_compute; reflexivity).
  split; [exact cpython27_frank_perm|]. split; [exact E|].
  exact (optimalCopulaFamily_result_requires cvolume_product (fun _ => U_inner)
           (fun _ => 3 # 10) entropy_squares Q invcopulastat_value
           CPython27.iteritems X_2x2 1 ["Frank"%string] "Frank" (3 # 10) (3 # 10)
           cpython27_frank_perm E).
Defined.

(** ** The choice of the family: which exception *)

Lemma family_body_no_cells
      (cvolume : string -> point -> point -> point -> point -> dependency -> Q)
      (entropy : list Q -> list Q -> distance)
      (emp : list Q) (f : string) (st : loop_state) :
  is_restricted f = false \/ neg_0_05 <= tau_hat st ->
  family_body cvolume entropy 0 emp f st = Raise IndexError.
Proof.
  intro H.
  assert (Hev : forall tau, evaluate cvolume entropy 0 emp f tau st = Raise IndexError)
    by reflexivity.
  assert (Hres : neg_0_05 <= tau_hat st ->
                 restricted cvolume entropy 0 emp f st = Raise IndexError).
  { intro L. unfold restricted.
    destruct (Qlt_bool (tau_hat st) neg_0_05) eqn:E1.
    - apply Qlt_bool_iff in E1. exfalso. apply (Qlt_irrefl (tau_hat st)).
      eapply Qlt_le_trans; eassumption.
    - destruct (Qle_bool neg_0_05 (tau_hat st) && Qlt_bool (tau_hat st) 0);
        [|destruct (Qle_bool 1 (tau_hat st))]; apply Hev. }
  unfold family_body.
  destruct (String.eqb (lower f) "clayton") eqn:Ec.
  - destruct H as [H|H]; [|now apply Hres].
    unfold is_restricted in H. rewrite Ec in H. discriminate H.
  - destruct (String.eqb (lower f) "gumbel") eqn:Eg; [|apply Hev].
    destruct H as [H|H]; [|now apply Hres].
    unfold is_restricted in H. rewrite Ec, Eg in H. discriminate H.
Qed.

(** The exceptions of [optimalCopulaFamily] for inputs it does not
    check.  [K < -1]: the [ValueError] of [np.linspace].  Fewer than two
    columns (and [K >= -1]): an [IndexError], [empirical_mnsig[0]] on the
    empty list of records, whatever the candidates.  [K = 0] with two
    columns or more: an [IndexError] at the first candidate, when it is
    evaluated, because [mnsig[False] = ...] assigns in the empty
    signature. *)
Theorem optimalCopulaFamily_exceptions
        (cvolume : string -> point -> point -> point -> point -> dependency -> Q)
        (pit : ndarray -> ndarray) (kendalls_tau : ndarray -> Q)
        (entropy : list Q -> list Q -> distance)
        (param : Type) (invcopulastat : string -> dependency -> param)
        (iteritems : dict -> list (string * distance))
        (X : ndarray) (K : Z) (family_search : list string) :
  ((K < -1)%Z ->
   optimalCopulaFamily cvolume pit kendalls_tau entropy invcopulastat
                       iteritems X K family_search = Raise ValueError) /\
  ((-1 <= K)%Z -> (shape1 X < 2)%nat ->
   optimalCopulaFamily cvolume pit kendalls_tau entropy invcopulastat
                       iteritems X K family_search = Raise IndexError) /\
  (K = 0%Z -> (2 <= shape1 X)%nat ->
   wf_array (pit X) -> shape0 (pit X) = shape0 X -> shape1 (pit X) = shape1 X ->
   forall f rest, family_search = f :: rest ->
     is_restricted f = false \/ neg_0_05 <= kendalls_tau X ->
     optimalCopulaFamily cvolume pit kendalls_tau entropy invcopulastat
                         iteritems X K family_search = Raise IndexError).
Proof.
  split; [|split].
  - intro HK. unfold optimalCopulaFamily, empirical_copulamnsig, _makeCoordsList.
    rewrite linspace_negative by lia. reflexivity.
  - intros HK HN. unfold optimalCopulaFamily.
    rewrite (empirical_few_columns pit X K HN HK). reflexivity.
  - intros -> HN HU H0 H1 f rest -> Hf.
    assert (Hcells : _makeCoordsList 0 = Ok []) by reflexivity.
    destruct (empirical_first_record pit X 0 [] HU H0 H1 Hcells eq_refl HN)
      as (more & Hrec).
    unfold optimalCopulaFamily. rewrite Hrec.
    unfold Py.bind at 1.
    change (getitem (pair_record [] (pit X) 0 0 1 :: more) 0)
      with (Ok (pair_record [] (pit X) 0 0 1)).
    unfold Py.bind at 1. cbv zeta. unfold family_loop.
    cbn [for_each]. cbn [tau_hat].
    rewrite family_body_no_cells; [reflexivity|exact Hf].
Qed.

Lemma optimalCopulaFamily_exceptions_witness :
  ((-2 < -1)%Z /\
   optimalCopulaFamily cvolume_product (fun _ => U_inner) (fun _ => 3 # 10)
                       entropy_squares invcopulastat_value CPython27.iteritems
                       X_2x2 (-2) default_families = Raise ValueError) /\
  ((-1 <= 4)%Z /\ (shape1 X_3x1 < 2)%nat /\
   optimalCopulaFamily cvolume_product (fun A => A) (fun _ => 3 # 10)
                       entropy_squares invcopulastat_value CPython27.iteritems
                       X_3x1 4 default_families = Raise IndexError) /\
  ((0 = 0)%Z /\ (2 <= shape1 X_2x2)%nat /\
   wf_array ((fun _ => U_inner) X_2x2) /\
   shape0 ((fun _ => U_inner) X_2x2) = shape0 X_2x2 /\
   shape1 ((fun _ => U_inner) X_2x2) = shape1 X_2x2 /\
   default_families = "Gaussian"%string :: ["Clayton"; "Gumbel"; "Frank"]%string /\
   (is_restricted "Gaussian" = false \/
    neg_0_05 <= (fun _ : ndarray => 3 # 10) X_2x2) /\
   optimalCopulaFamily cvolume_product (fun _ => U_inner) (fun _ => 3 # 10)
                       entropy_squares invcopulastat_value CPython27.iteritems
                       X_2x2 0 default_families = Raise IndexError).
Proof.
  split; [|split].
  - split; [lia|].
    apply (proj1 (optimalCopulaFamily_exceptions cvolume_product (fun _ => U_inner)
                    (fun _ => 3 # 10) entropy_squares Q invcopulastat_value
                    CPython27.iteritems X_2x2 (-2) default_families)).
    lia.
  - split; [lia|]. split; [simpl; lia|].
    apply (proj1 (proj2 (optimalCopulaFamily_exceptions cvolume_product
                    (fun A => A) (fun _ => 3 # 10) entropy_squares Q
                    invcopulastat_value CPython27.iteritems X_3x1 4
                    default_families))); [lia | simpl; lia].
  - split; [reflexivity|]. split; [simpl; lia|]. split; [exact wf_U_inner|].
    split; [reflexivity|]. split; [reflexivity|]. split; [reflexivity|].
    split; [left; reflexivity|].
    apply (proj2 (proj2 (optimalCopulaFamily_exceptions cvolume_product
                    (fun _ => U_inner) (fun _ => 3 # 10) entropy_squares Q
                    invcopulastat_value CPython27.iteritems X_2x2 0
                    default_families)) eq_refl)
      with (f := "Gaussian"%string) (rest := ["Clayton"; "Gumbel"; "Frank"]%string);
      [simpl; lia | exact wf_U_inner | reflexivity | reflexivity | reflexivity
       | left; reflexivity].
Defined.

(* ================================================================= *)
(** ** The variable [tau_hat] through the loop *)

(** From a [tau_hat] in [[0, 1)] no branch assigns it: every family is
    evaluated at that value. *)
Lemma family_loop_in_range
      (cvolume : string -> point -> point -> point -> point -> dependency -> Q)
      (entropy : list Q -> list Q -> distance)
      (K : Z) (emp : list Q) (fs : list string) (st : loop_state) :
  (1 <= K)%Z -> 0 <= tau_hat st -> tau_hat st < 1 ->
  exists st',
    for_each fs (family_body cvolume entropy K emp) st = Ok st' /\
    tau_hat st' = tau_hat st /\
    built st' = built st ++ map (fun g => (g, tau_hat st)) fs.
Proof.
  intro HK. revert st. induction fs as [|f fs IH]; intros st H0 H1; simpl.
  - exists st. rewrite app_nil_r. repeat split.
  - destruct (family_body_cases cvolume entropy K emp HK f st)
      as [(_ & L & _) | (t & d & E & Hfree & Hres)].
    { exfalso. apply (Qlt_irrefl (tau_hat st)).
      eapply Qlt_le_trans; [exact L|]. eapply Qle_trans; [|exact H0]. discriminate. }
    assert (Ht : t = tau_hat st).
    { destruct (is_restricted f) eqn:Er; [|now apply Hfree].
      destruct (Hres eq_refl) as [_ [[L _]|[[L _]|(_ & _ & ->)]]]; [| |reflexivity];
        exfalso; apply (Qlt_irrefl (tau_hat st)).
      - eapply Qlt_le_trans; eassumption.
      - eapply Qlt_le_trans; eassumption. }
    subst t. rewrite E.
    destruct (IH (mkState (tau_hat st) (dict_set (distances st) f d)
                          (built st ++ [(f, tau_hat st)])) H0 H1)
      as (st' & E' & Ht' & Hb').
    exists st'. split; [exact E'|]. split; [exact Ht'|].
    rewrite Hb'. simpl. now rewrite <- app_assoc.
Qed.

(** When the empirical [tau_hat] lies in [[0, 1)] nothing is clamped:
    every candidate, restricted or not, is evaluated at the empirical
    value, the parameter is inverted from it, and it is the [tau_hat]
    returned. *)
Theorem tau_hat_kept_in_range
        (cvolume : string -> point -> point -> point -> point -> dependency -> Q)
        (pit : ndarray -> ndarray) (kendalls_tau : ndarray -> Q)
        (entropy : list Q -> list Q -> distance)
        (param : Type) (invcopulastat : string -> dependency -> param)
        (iteritems : dict -> list (string * distance))
        (X : ndarray) (K : Z) (family_search : list string) :
  (1 <= K)%Z -> 0 <= kendalls_tau X -> kendalls_tau X < 1 ->
  (forall emp, exists st,
     family_loop cvolume entropy K emp (kendalls_tau X) family_search = Ok st /\
     tau_hat st = kendalls_tau X /\
     built st = map (fun g => (g, kendalls_tau X)) family_search) /\
  (forall f p t,
     optimalCopulaFamily cvolume pit kendalls_tau entropy invcopulastat
                         iteritems X K family_search = Ok (f, p, t) ->
     t = kendalls_tau X /\ p = invcopulastat f (kendall (kendalls_tau X))).
Proof.
  intros HK H0 H1.
  assert (Hloop : forall emp, exists st,
     family_loop cvolume entropy K emp (kendalls_tau X) family_search = Ok st /\
     tau_hat st = kendalls_tau X /\
     built st = map (fun g => (g, kendalls_tau X)) family_search).
  { intro emp.
    destruct (family_loop_in_range cvolume entropy K emp family_search
                (mkState (kendalls_tau X) [] []) HK H0 H1) as (st & E & Ht & Hb).
    exists st. split; [exact E|]. split; [exact Ht | exact Hb]. }
  split; [exact Hloop|].
  intros f p t Hrun.
  apply optimalCopulaFamily_inv in Hrun as (emp & st & E & Hsel).
  destruct (Hloop emp) as (st' & E' & Ht' & _).
  rewrite E in E'. injection E' as <-.
  unfold selected in Hsel.
  destruct (snd (search_min (iteritems (distances st)))); [|discriminate].
  injection Hsel as <- <- <-. rewrite Ht'. split; reflexivity.
Qed.

Lemma tau_hat_kept_in_range_witness :
  (1 <= 1)%Z /\
  0 <= (fun _ : ndarray => 3 # 10) X_2x2 /\
  (fun _ : ndarray => 3 # 10) X_2x2 < 1 /\
  ((forall emp, exists st,
      family_loop cvolume_product entropy_squares 1 emp
                  ((fun _ : ndarray => 3 # 10) X_2x2) default_families = Ok st /\
      tau_hat st = (fun _ : ndarray => 3 # 10) X_2x2 /\
      built st =
        map (fun g => (g, (fun _ : ndarray => 3 # 10) X_2x2)) default_families) /\
   (forall f p t,
      optimalCopulaFamily cvolume_product (fun _ => U_inner) (fun _ => 3 # 10)
                          entropy_squares invcopulastat_value
                          CPython27.iteritems X_2x2 1 default_families =
      Ok (f, p, t) ->
      t = (fun _ : ndarray => 3 # 10) X_2x2 /\
      p = invcopulastat_value f (kendall ((fun _ : ndarray => 3 # 10) X_2x2)))) /\
  optimalCopulaFamily cvolume_product (fun _ => U_inner) (fun _ => 3 # 10)
                      entropy_squares invcopulastat_value
                      CPython27.iteritems X_2x2 1 default_families =
  Ok ("Clayton"%string, 3 # 10, 3 # 10).
Proof.
  split; [lia|]. split; [discriminate|]. split; [reflexivity|].
  split; [|vm_compute; reflexivity].
  apply (tau_hat_kept_in_range cvolume_product (fun _ => U_inner)
           (fun _ => 3 # 10) entropy_squares Q invcopulastat_value
           CPython27.iteritems X_2x2 1 default_families);
    [lia | discriminate | reflexivity].
Defined.

(** When the empirical [tau_hat] is 1 or more, the first Clayton or
    Gumbel candidate assigns [1 - np.spacing(1)] to [tau_hat]; the
    candidates before it are evaluated at the empirical value, it and
    all the later ones at [1 - np.spacing(1)], which is also the value
    inverted and returned. *)
Theorem upper_clamp_overwrites_tau_hat
        (cvolume : string -> point -> point -> point -> point -> dependency -> Q)
        (pit : ndarray -> ndarray) (kendalls_tau : ndarray -> Q)
        (entropy : list Q -> list Q -> distance)
        (param : Type) (invcopulastat : string -> dependency -> param)
        (iteritems : dict -> list (string * distance))
        (X : ndarray) (K : Z) (pre : list string) (f : string)
        (post : list string) :
  (1 <= K)%Z ->
  1 <= kendalls_tau X ->
  Forall (fun g => is_restricted g = false) pre ->
  is_restricted f = true ->
  (forall emp, exists st,
     family_loop cvolume entropy K emp (kendalls_tau X) (pre ++ f :: post) = Ok st /\
     tau_hat st = 1 - Np.spacing1 /\
     built st =
       map (fun g => (g, kendalls_tau X)) pre ++
       (f, 1 - Np.spacing1) :: map (fun g => (g, 1 - Np.spacing1)) post) /\
  (forall fam p t,
     optimalCopulaFamily cvolume pit kendalls_tau entropy invcopulastat
                         iteritems X K (pre ++ f :: post) = Ok (fam, p, t) ->
     t = 1 - Np.spacing1 /\ p = invcopulastat fam (kendall (1 - Np.spacing1))).
Proof.
  intros HK Hhi Hpre Hf.
  assert (Hloop : forall emp, exists st,
     family_loop cvolume entropy K emp (kendalls_tau X) (pre ++ f :: post) = Ok st /\
     tau_hat st = 1 - Np.spacing1 /\
     built st =
       map (fun g => (g, kendalls_tau X)) pre ++
       (f, 1 - Np.spacing1) :: map (fun g => (g, 1 - Np.spacing1)) post).
  { intro emp. unfold family_loop. rewrite for_each_app.
    destruct (family_loop_unrestricted cvolume entropy K emp HK pre
                (mkState (kendalls_tau X) [] []) Hpre) as (st1 & E1 & Ht1 & Hb1).
    rewrite E1. simpl Py.bind. simpl in Ht1, Hb1.
    change (for_each (f :: post) (family_body cvolume entropy K emp) st1)
      with (match family_body cvolume entropy K emp f st1 with
            | Ok s' => for_each post (family_body cvolume entropy K emp) s'
            | Raise e => Raise e
            end).
    destruct (family_body_cases cvolume entropy K emp HK f st1)
      as [(_ & L & _) | (t & d & E & _ & Hres)].
    { rewrite Ht1 in L. exfalso. apply (Qlt_irrefl (kendalls_tau X)).
      eapply Qlt_le_trans; [exact L|]. eapply Qle_trans; [|exact Hhi]. discriminate. }
    assert (Ht : t = 1 - Np.spacing1).
    { destruct (Hres Hf) as [_ [[L _]|[[_ ->]|(_ & L & _)]]]; [|reflexivity|];
        rewrite Ht1 in L; exfalso; apply (Qlt_irrefl (kendalls_tau X)).
      - eapply Qlt_le_trans; [exact L|]. eapply Qle_trans; [|exact Hhi]. discriminate.
      - eapply Qlt_le_trans; eassumption. }
    subst t. rewrite E.
    destruct (family_loop_in_range cvolume entropy K emp post
                (mkState (1 - Np.spacing1) (dict_set (distances st1) f d)
                         (built st1 ++ [(f, 1 - Np.spacing1)]))
                HK ltac:(discriminate) ltac:(reflexivity))
      as (st2 & E2 & Ht2 & Hb2).
    exists st2. split; [exact E2|]. split; [exact Ht2|].
    rewrite Hb2. simpl. rewrite Hb1. now rewrite <- app_assoc. }
  split; [exact Hloop|].
  intros fam p t Hrun.
  apply optimalCopulaFamily_inv in Hrun as (emp & st & E & Hsel).
  destruct (Hloop emp) as (st' & E' & Ht' & _).
  rewrite E in E'. injection E' as <-.
  unfold selected in Hsel.
  destruct (snd (search_min (iteritems (distances st)))); [|discriminate].
  injection Hsel as <- <- <-. rewrite Ht'. split; reflexivity.
Qed.

Lemma upper_clamp_overwrites_tau_hat_witness :
  (1 <= 4)%Z /\
  1 <= (fun _ : ndarray => 1) X_2x2 /\
  Forall (fun g => is_restricted g = false) ["Gaussian"%string] /\
  is_restricted "Clayton" = true /\
  (forall emp, exists st,
     family_loop cvolume_product entropy_squares 4 emp
                 ((fun _ : ndarray => 1) X_2x2)
                 (["Gaussian"%string] ++ "Clayton"%string
                    :: ["Gumbel"%string; "Frank"%string]) = Ok st /\
     tau_hat st = 1 - Np.spacing1 /\
     built st =
       map (fun g => (g, (fun _ : ndarray => 1) X_2x2)) ["Gaussian"%string] ++
       ("Clayton"%string, 1 - Np.spacing1)
         :: map (fun g => (g, 1 - Np.spacing1)) ["Gumbel"%string; "Frank"%string]) /\
  (forall fam p t,
     optimalCopulaFamily cvolume_product (fun _ => U_inner) (fun _ => 1)
                         entropy_squares invcopulastat_value
                         CPython27.iteritems X_2x2 4
                         (["Gaussian"%string] ++ "Clayton"%string
                            :: ["Gumbel"%string; "Frank"%string]) =
     Ok (fam, p, t) ->
     t = 1 - Np.spacing1 /\
     p = invcopulastat_value fam (kendall (1 - Np.spacing1))).
Proof.
  split; [lia|]. split; [discriminate|].
  split; [repeat constructor|]. split; [reflexivity|].
  apply (upper_clamp_overwrites_tau_hat cvolume_product (fun _ => U_inner)
           (fun _ => 1) entropy_squares Q invcopulastat_value
           CPython27.iteritems X_2x2 4 ["Gaussian"%string] "Clayton"
           ["Gumbel"%string; "Frank"%string]);
    [lia | discriminate | repeat constructor | reflexivity].
Defined.

(* ================================================================= *)
(** ** The two vectors given to [entropy] *)

Lemma copulamnsig_length
      (cvolume : string -> point -> point -> point -> point -> dependency -> Q)
      (f : string) (K : Z) (args : dependency) (mnsig : list Q) :
  (1 <= K)%Z -> copulamnsig cvolume f K args = Ok mnsig ->
  List.length mnsig = Z.to_nat (K * K).
Proof.
  intros HK H. destruct (makeCoordsList_ok K HK) as (u & _ & E).
  unfold copulamnsig in H. rewrite E in H. simpl in H. injection H as <-.
  rewrite length_map, nested_length. lia.
Qed.

Lemma mask_zero_assign_positive (a : list Q) :
  Forall (fun x => 0 <= x) a ->
  Forall (fun x => 0 < x) (Np.mask_zero_assign a Np.spacing1).
Proof.
  intro H. unfold Np.mask_zero_assign. apply Forall_map.
  eapply Forall_impl; [|exact H]. intros x H0. simpl.
  destruct (Qeq_bool x 0) eqn:E.
  - reflexivity.
  - apply Qeq_bool_neq in E.
    destruct (Qle_lt_or_eq _ _ H0) as [L|Eq]; [exact L|].
    exfalso. apply E. symmetry. exact Eq.
Qed.

(** The divergence is always computed between two vectors of [K*K]
    entries.  The second one is the vector of the first pair of columns
    only ([rv1 = 1], [rv2 = 2]), whatever the number of columns, with its
    zeros replaced: all its entries are positive.  The first one is a
    signature whose first entry is [np.spacing(1)]. *)
Theorem entropy_arguments
        (cvolume : string -> point -> point -> point -> point -> dependency -> Q)
        (pit : ndarray -> ndarray) (kendalls_tau : ndarray -> Q)
        (entropy : list Q -> list Q -> distance)
        (param : Type) (invcopulastat : string -> dependency -> param)
        (iteritems : dict -> list (string * distance))
        (X : ndarray) (K : Z) (family_search : list string) :
  (1 <= K)%Z -> (2 <= shape1 X)%nat ->
  wf_array (pit X) -> shape0 (pit X) = shape0 X -> shape1 (pit X) = shape1 X ->
  exists first rest st,
    empirical_copulamnsig pit X K = Ok (first :: rest) /\
    rv1 first = 1%Z /\ rv2 first = 2%Z /\
    List.length (Np.mask_zero_assign (esig first) Np.spacing1) = Z.to_nat (K * K) /\
    Forall (fun x => 0 < x) (Np.mask_zero_assign (esig first) Np.spacing1) /\
    family_loop cvolume entropy K
                (Np.mask_zero_assign (esig first) Np.spacing1)
                (kendalls_tau X) family_search = Ok st /\
    optimalCopulaFamily cvolume pit kendalls_tau entropy invcopulastat
                        iteritems X K family_search =
      selected invcopulastat iteritems st /\
    forall kv, In kv (distances st) ->
      snd kv = Inf \/
      exists t,
        snd kv = entropy (Np.spacing1 :: t)
                         (Np.mask_zero_assign (esig first) Np.spacing1) /\
        List.length (Np.spacing1 :: t) = Z.to_nat (K * K).
Proof.
  intros HK HN HU H0 H1.
  destruct (makeCoordsList_ok K HK) as (u & Hu & Hcells).
  set (coords_list := flat_map (fun ii => map (make_cell u u ii) (seq 0 (Z.to_nat K)))
                               (seq 0 (Z.to_nat K))) in *.
  assert (Hlen : List.length coords_list = Z.to_nat (K * K))
    by (unfold coords_list; rewrite nested_length; lia).
  destruct (empirical_first_record pit X K coords_list HU H0 H1 Hcells Hlen HN)
    as (rest & Hrec).
  set (first := pair_record coords_list (pit X) K 0 1) in *.
  set (emp := Np.mask_zero_assign (esig first) Np.spacing1).
  destruct (pair_record_facts K u (pit X) 0 1 HK (proj1 HU) Hu)
    as (Hl & _ & _ & _ & Hin & _).
  fold coords_list in Hl, Hin. fold first in Hl, Hin.
  destruct (family_loop_keys cvolume entropy K emp HK (kendalls_tau X) family_search)
    as (st & E & _ & _).
  exists first, rest, st.
  split; [exact Hrec|]. split; [reflexivity|]. split; [reflexivity|].
  split; [unfold emp, Np.mask_zero_assign; now rewrite length_map|].
  split; [apply mask_zero_assign_positive, Forall_forall; exact Hin|].
  split; [exact E|].
  split.
  { unfold optimalCopulaFamily. rewrite Hrec.
    unfold Py.bind at 1.
    change (getitem (first :: rest) 0) with (Ok first).
    unfold Py.bind at 1. cbv zeta. fold emp. rewrite E. reflexivity. }
  intros kv Hkv.
  destruct (family_loop_inv cvolume entropy K emp _ _ _ E) as (_ & _ & Hval).
  destruct (Hval kv Hkv) as [Hinf | (tau & v & t & Hc & Hd)]; [now left|].
  right. exists t. split; [exact Hd|].
  apply (copulamnsig_length cvolume _ K _ _ HK) in Hc. simpl in *. exact Hc.
Qed.

Lemma entropy_arguments_witness :
  (1 <= 4)%Z /\ (2 <= shape1 X_2x2)%nat /\
  wf_array ((fun _ => U_inner) X_2x2) /\
  shape0 ((fun _ => U_inner) X_2x2) = shape0 X_2x2 /\
  shape1 ((fun _ => U_inner) X_2x2) = shape1 X_2x2 /\
  exists first rest st,
    empirical_copulamnsig (fun _ => U_inner) X_2x2 4 = Ok (first :: rest) /\
    rv1 first = 1%Z /\ rv2 first = 2%Z /\
    List.length (Np.mask_zero_assign (esig first) Np.spacing1) = Z.to_nat (4 * 4) /\
    Forall (fun x => 0 < x) (Np.mask_zero_assign (esig first) Np.spacing1) /\
    family_loop cvolume_product entropy_squares 4
                (Np.mask_zero_assign (esig first) Np.spacing1)
                ((fun _ : ndarray => 3 # 10) X_2x2) default_families = Ok st /\
    optimalCopulaFamily cvolume_product (fun _ => U_inner) (fun _ => 3 # 10)
                        entropy_squares invcopulastat_value
                        CPython27.iteritems X_2x2 4 default_families =
      selected invcopulastat_value CPython27.iteritems st /\
    forall kv, In kv (distances st) ->
      snd kv = Inf \/
      exists t,
        snd kv = entropy_squares (Np.spacing1 :: t)
                   (Np.mask_zero_assign (esig first) Np.spacing1) /\
        List.length (Np.spacing1 :: t) = Z.to_nat (4 * 4).
Proof.
  split; [lia|]. split; [simpl; lia|]. split; [exact wf_U_inner|].
  split; [reflexivity|]. split; [reflexivity|].
  apply (entropy_arguments cvolume_product (fun _ => U_inner) (fun _ => 3 # 10)
           entropy_squares Q invcopulastat_value CPython27.iteritems
           X_2x2 4 default_families);
    [lia | simpl; lia | exact wf_U_inner | reflexivity | reflexivity].
Defined.


(* ================================================================= *)
(** ** The threshold of the restricted families *)

(** The threshold of the exclusion is the double that the literal
    [-0.05] denotes, just below [-1/20], and the comparison with it is
    strict: with [tau_hat] equal to that double, Clayton is not excluded
    but evaluated with [tau_hat] set to 0. *)
Lemma threshold_is_the_double :
  Binary64.to_Q Binary64.neg_0_05 = Some neg_0_05 /\
  neg_0_05 < - (1 # 20) /\
  exists d,
    family_loop cvolume_product entropy_squares 1 [1] neg_0_05
                ["Clayton"%string] =
    Ok (mkState 0 [("Clayton"%string, Finite d)] [("Clayton"%string, 0)]).
Proof.
  split; [vm_compute; reflexivity|]. split; [reflexivity|].
  eexists. vm_compute. reflexivity.
Qed.
